(** * Verification of the helper library [utils.py]

    A shallow embedding of the Python helpers (math helpers, hexadecimal
    conversion, permutations with repetition, directions and grid
    operations), followed by the theorems that settle the properties
    stated about them.

    Conventions of the embedding:
    - a Python [int] is a [Z]; [%] and [//] are [Z.modulo] and [Z.div],
      which, like Python's, round towards minus infinity and give the
      remainder the sign of the divisor;
    - a Python [str] is a [list ascii] (code points below 256);
    - a raised exception is the [Raise] branch of [outcome];
    - code that mutates an object is a state transformer [M S A] over the
      mutated store; a raised exception keeps the mutations made so far. *)

From Stdlib Require Import ZArith Ascii String Znumtheory Lia.
From Equations Require Import Equations.
From stdpp Require Import base numbers list strings gmap.

(** ** Exceptions and outcomes *)

Inductive exn : Set :=
| IndexError
| ValueError
| ZeroDivisionError
| RecursionError
| SystemError.

Inductive outcome (A : Type) : Type :=
| Ret (a : A)
| Raise (e : exn).
Arguments Ret {A} a.
Arguments Raise {A} e.

#[global] Instance exn_eq_dec : EqDecision exn.
Proof. solve_decision. Defined.

#[global] Instance outcome_ret : MRet outcome := @Ret.
#[global] Instance outcome_bind : MBind outcome := fun A B f m =>
  match m with
  | Ret a => f a
  | Raise e => Raise e
  end.

(** A computation over a mutable store of type [S]. *)
Definition M (S A : Type) : Type := S -> outcome A * S.

Definition m_ret {S A} (a : A) : M S A := fun s => (Ret a, s).
Definition m_bind {S A B} (m : M S A) (f : A -> M S B) : M S B := fun s =>
  match m s with
  | (Ret a, s') => f a s'
  | (Raise e, s') => (Raise e, s')
  end.
Definition m_raise {S A} (e : exn) : M S A := fun s => (Raise e, s).
Definition m_get {S} : M S S := fun s => (Ret s, s).
Definition m_put {S} (s : S) : M S unit := fun _ => (Ret tt, s).
Definition m_lift {S A} (o : outcome A) : M S A := fun s => (o, s).

(** [try: m except e => h]: the handler runs in the store the exception
    left behind. *)
Definition m_try {S A} (m : M S A) (catch : exn -> bool) (h : M S A) : M S A :=
  fun s =>
    match m s with
    | (Raise e, s') => if catch e then h s' else (Raise e, s')
    | r => r
    end.

#[global] Instance M_ret {S} : MRet (M S) := @m_ret S.
#[global] Instance M_bind {S} : MBind (M S) := fun A B f m => m_bind m f.

Ltac m_unfold :=
  unfold mbind, mret, M_bind, M_ret, m_bind, m_ret, m_get, m_put, m_lift,
    m_raise, m_try in *.

Definition eval {S A} (m : M S A) (s : S) : outcome A := fst (m s).
Definition exec {S A} (m : M S A) (s : S) : S := snd (m s).

(** ** Sequences: [len], indexing, item assignment *)

Abbreviation str := (list ascii).

Definition py (s : string) : str := list_ascii_of_string s.

Definition len {A} (xs : list A) : Z := Z.of_nat (length xs).

(** Python maps a negative index [i] to [i + len] once; what is then not in
    [0, len) is out of range. *)
Definition norm_index (n : Z) (i : Z) : outcome nat :=
  let j := if (i <? 0)%Z then (i + n)%Z else i in
  if ((0 <=? j) && (j <? n))%Z then Ret (Z.to_nat j) else Raise IndexError.

(** [xs[i]] *)
Definition getitem {A} (xs : list A) (i : Z) : outcome A :=
  j ← norm_index (len xs) i;
  match xs !! j with
  | Some x => Ret x
  | None => Raise IndexError
  end.

(** [xs[i] = v], giving the updated list *)
Definition setitem {A} (xs : list A) (i : Z) (v : A) : outcome (list A) :=
  j ← norm_index (len xs) i;
  Ret (<[j := v]> xs).

(** [s[i]] on a [str] is a string of one character. *)
Definition str_getitem (s : str) (i : Z) : outcome str :=
  ch ← getitem s i; Ret [ch].

(** [list(s)] and ["".join(l)] *)
Definition list_of_str (s : str) : list str := (fun ch => [ch]) <$> s.
Definition join (l : list str) : str := concat l.

(** ** Math helpers *)

Section math.
Local Open Scope Z_scope.

(** [a % b] *)
Definition py_mod (a b : Z) : outcome Z :=
  if b =? 0 then Raise ZeroDivisionError else Ret (a mod b).

(** [a // b] *)
Definition py_floordiv (a b : Z) : outcome Z :=
  if b =? 0 then Raise ZeroDivisionError else Ret (a / b).

Definition cap (value cap_value : Z) : outcome Z :=
  r ← py_mod value cap_value;
  Ret (if r =? 0 then cap_value else r).

(** The loop of [gcd]: [while b != 0: a, b = b, a % b], giving the final
    [a].  The guard makes [a % b] safe. *)
Equations? gcd_loop (a b : Z) : Z by wf (Z.abs_nat b) lt :=
  gcd_loop a b with Z.eq_dec b 0 => {
    | left _ := a;
    | right _ := gcd_loop b (a mod b) }.
Proof.
  destruct (Z_lt_le_dec b 0).
  - pose proof (Z.mod_neg_bound a b); lia.
  - pose proof (Z.mod_pos_bound a b); lia.
Qed.

Definition gcd (a b : Z) : Z := Z.abs (gcd_loop a b).

Definition lcm (a b : Z) : outcome Z :=
  py_floordiv (Z.abs (a * b)) (gcd a b).

End math.

(** ** Directions *)

Inductive Dir : Set := UP | DOWN | LEFT | RIGHT.

#[global] Instance Dir_eq_dec : EqDecision Dir.
Proof. solve_decision. Defined.

Definition rotate (self : Dir) : outcome Dir :=
  if decide (self = UP) then Ret RIGHT
  else if decide (self = DOWN) then Ret LEFT
  else if decide (self = LEFT) then Ret UP
  else if decide (self = RIGHT) then Ret DOWN
  else Raise ValueError.

Definition clockwise (self : Dir) : outcome Dir := rotate self.

Definition counter_clockwise (self : Dir) : outcome Dir :=
  if decide (self = UP) then Ret LEFT
  else if decide (self = DOWN) then Ret RIGHT
  else if decide (self = LEFT) then Ret DOWN
  else if decide (self = RIGHT) then Ret UP
  else Raise ValueError.

(** ** [int(s, base)], [bin], slices and [zfill]

    The builtins used by [hex_to_binary] and [grid_int], after CPython's
    [PyLong_FromUnicodeObject] and [PyLong_FromString] for an explicit base
    between 2 and 36. *)

Section builtins.
Local Open Scope Z_scope.

Definition code (c : ascii) : Z := Z.of_nat (nat_of_ascii c).

Definition Py_ISSPACE (c : ascii) : bool :=
  (code c =? 32) || ((9 <=? code c) && (code c <=? 13)).

(** The white space among the code points 128..255. *)
Definition Py_UNICODE_ISSPACE (c : ascii) : bool :=
  (code c =? 133) || (code c =? 160).

(** Value of a digit; 37 for what is no digit in any base. *)
Definition digit_value (c : ascii) : Z :=
  if (48 <=? code c) && (code c <=? 57) then code c - 48
  else if (97 <=? code c) && (code c <=? 122) then code c - 87
  else if (65 <=? code c) && (code c <=? 90) then code c - 55
  else 37.

(** A string with a character outside ASCII has its white space turned
    into blanks; it stops at the first other such character, which no code
    point below 256 makes a decimal digit. *)
Fixpoint transform_decimal_and_space (s : str) : str :=
  match s with
  | [] => []
  | c :: s' =>
      if code c <? 127 then c :: transform_decimal_and_space s'
      else if Py_UNICODE_ISSPACE c then " "%char :: transform_decimal_and_space s'
      else ["?"%char]
  end.

Definition to_ascii (s : str) : str :=
  if forallb (fun c => code c <? 128) s then s
  else transform_decimal_and_space s.

(** The run of digits, single underscores allowed between them: the value,
    the number of digits and the unread rest. *)
Fixpoint scan_digits (base : Z) (prev : ascii) (acc : Z) (digits : nat)
    (s : str) : outcome (Z * nat * str) :=
  let stop :=
    if Ascii.eqb prev "_" then Raise ValueError else Ret (acc, digits, s) in
  match s with
  | [] => stop
  | c :: s' =>
      if Ascii.eqb c "_" then
        if Ascii.eqb prev "_" then Raise ValueError
        else scan_digits base c acc digits s'
      else if digit_value c <? base then
        scan_digits base c (acc * base + digit_value c) (S digits) s'
      else stop
  end.

Fixpoint skip_space (s : str) : str :=
  match s with
  | c :: s' => if Py_ISSPACE c then skip_space s' else s
  | [] => []
  end.

Definition skip_sign (s : str) : Z * str :=
  match s with
  | c :: s' =>
      if Ascii.eqb c "+" then (1, s')
      else if Ascii.eqb c "-" then (-1, s')
      else (1, s)
  | [] => (1, s)
  end.

Definition is_prefix_letter (base : Z) (c : ascii) : bool :=
  ((base =? 16) && (Ascii.eqb c "x" || Ascii.eqb c "X"))
  || ((base =? 8) && (Ascii.eqb c "o" || Ascii.eqb c "O"))
  || ((base =? 2) && (Ascii.eqb c "b" || Ascii.eqb c "B")).

Definition skip_prefix (base : Z) (s : str) : str :=
  match s with
  | z :: x :: s' =>
      if Ascii.eqb z "0" && is_prefix_letter base x then
        match s' with
        | u :: s'' => if Ascii.eqb u "_" then s'' else s'
        | [] => s'
        end
      else s
  | _ => s
  end.

Definition int_max_str_digits : nat := 4300.

Definition is_binary_base (base : Z) : bool :=
  Z.land base (base - 1) =? 0.

Definition PyLong_FromString (s : str) (base : Z) : outcome Z :=
  let '(sign, s1) := skip_sign (skip_space s) in
  let s2 := skip_prefix base s1 in
  match s2 with
  | "_"%char :: _ => Raise ValueError
  | _ =>
      '(z, digits, rest) ← scan_digits base "000"%char 0 0%nat s2;
      if (digits =? 0)%nat then Raise ValueError
      else if negb (is_binary_base base) && (int_max_str_digits <? digits)%nat
      then Raise ValueError
      else
        match skip_space rest with
        | [] => Ret (sign * z)
        | _ => Raise ValueError
        end
  end.

(** [int(s, base)] on a [str] *)
Definition py_int (s : str) (base : Z) : outcome Z :=
  PyLong_FromString (to_ascii s) base.

Fixpoint bin_digits (p : positive) : str :=
  match p with
  | xH => ["1"%char]
  | xO p' => bin_digits p' ++ ["0"%char]
  | xI p' => bin_digits p' ++ ["1"%char]
  end.

(** [bin(n)] *)
Definition bin (n : Z) : str :=
  match n with
  | Z0 => py "0b0"
  | Zpos p => py "0b" ++ bin_digits p
  | Zneg p => py "-0b" ++ bin_digits p
  end.

(** [s[k:]] for [k >= 0] *)
Definition slice_from (s : str) (k : nat) : str := drop k s.

(** [s.zfill(width)] *)
Definition zfill (s : str) (width : nat) : str :=
  if (width <=? length s)%nat then s
  else
    let fill := replicate (width - length s) "0"%char in
    match s with
    | c :: s' =>
        if Ascii.eqb c "+" || Ascii.eqb c "-" then c :: fill ++ s'
        else fill ++ s
    | [] => fill
    end.

Definition hex_to_binary (ch : str) : outcome str :=
  n ← py_int ch 16;
  Ret (zfill (slice_from (bin n) 2) 4).

End builtins.

(** ** Permutations with repetition

    [curr] and [result] are references to list objects of one store; a list
    holds elements or references to other lists.  [list(curr)] allocates a
    new object.  The recursion depth Python allows is [depth]; exceeding it
    raises [RecursionError]. *)

Section permutations.
Context {T : Type} `{Countable T}.

Inductive val : Type :=
| Elem (x : T)
| Ref (l : nat).

Definition load (l : nat) : M (gmap nat (list val)) (list val) := fun h =>
  match h !! l with
  | Some xs => (Ret xs, h)
  | None => (Raise SystemError, h)
  end.

Definition store (l : nat) (xs : list val) : M (gmap nat (list val)) unit :=
  fun h => (Ret tt, <[l := xs]> h).

Definition alloc (xs : list val) : M (gmap nat (list val)) nat := fun h =>
  let l := fresh (dom h) in (Ret l, <[l := xs]> h).

(** [len(l)] *)
Definition list_len (l : nat) : M (gmap nat (list val)) Z :=
  xs ← load l; mret (len xs).

(** [list(l)] *)
Definition list_copy (l : nat) : M (gmap nat (list val)) nat :=
  xs ← load l; alloc xs.

(** [l.append(v)] *)
Definition list_append (l : nat) (v : val) : M (gmap nat (list val)) unit :=
  xs ← load l; store l (xs ++ [v]).

(** [l.pop()] *)
Definition list_pop (l : nat) : M (gmap nat (list val)) val :=
  xs ← load l;
  match last xs with
  | Some v => store l (take (length xs - 1) xs);; mret v
  | None => m_raise IndexError
  end.

(** [for x in xs: body(x)] *)
Fixpoint for_each {S A} (xs : list A) (body : A -> M S unit) : M S unit :=
  match xs with
  | [] => mret tt
  | x :: xs' => body x;; for_each xs' body
  end.

Fixpoint permute (depth : nat) (curr : nat) (max_length : Z) (result : nat)
    (ops : gset T) : M (gmap nat (list val)) unit :=
  match depth with
  | O => m_raise RecursionError
  | S depth' =>
      n ← list_len curr;
      if (n =? max_length)%Z then
        copy ← list_copy curr;
        list_append result (Ref copy)
      else
        for_each (elements ops) (fun op =>
          list_append curr (Elem op);;
          permute depth' curr max_length result ops;;
          list_pop curr;;
          mret tt)
  end.

End permutations.

Arguments val T : clear implicits.

(** ** Grids

    The grid is the mutable object: a list of rows, each a [str]. *)

Section grid.
Local Open Scope Z_scope.

Definition grid_rows : M (list str) Z :=
  grid ← m_get; mret (len grid).

Definition grid_cols : M (list str) Z :=
  grid ← m_get;
  if bool_decide (grid = []) then mret 0
  else row ← m_lift (getitem grid 0); mret (len row).

Definition grid_is_inbound (rc : Z * Z) : M (list str) bool :=
  let '(r, c) := rc in
  grid ← m_get;
  if bool_decide (grid = []) then mret false
  else
    let max_r := len grid - 1 in
    row ← m_lift (getitem grid 0);
    let max_c := len row - 1 in
    mret ((0 <=? r) && (r <=? max_r) && ((0 <=? c) && (c <=? max_c))).

(** [grid[r][c]] *)
Definition grid_item (r c : Z) : M (list str) str :=
  grid ← m_get;
  row ← m_lift (getitem grid r);
  m_lift (str_getitem row c).

Definition grid_get (r c : Z) : M (list str) str := grid_item r c.

Definition is_IndexError (e : exn) : bool := bool_decide (e = IndexError).

Definition grid_get_or_none (rc : Z * Z) : M (list str) (option str) :=
  let '(r, c) := rc in
  m_try (v ← grid_item r c; mret (Some v)) is_IndexError (mret None).

Definition grid_int (r c : Z) : M (list str) (option Z) :=
  m_try (v ← grid_item r c; n ← m_lift (py_int v 10); mret (Some n))
    (fun e => bool_decide (e = IndexError) || bool_decide (e = ValueError))
    (mret None).


Definition grid_set (r c : Z) (v : str) : M (list str) unit :=
  grid ← m_get;
  row ← m_lift (getitem grid r);
  let row_list := list_of_str row in
  row_list' ← m_lift (setitem row_list c v);
  grid' ← m_get;
  grid'' ← m_lift (setitem grid' r (join row_list'));
  m_put grid''.

Definition grid_set_rc (rc : Z * Z) (v : str) : M (list str) unit :=
  let '(r, c) := rc in grid_set r c v.

(** [for x in xs: yield from body(x)], the values yielded collected *)
Fixpoint for_yield {S A B} (xs : list A) (body : A -> M S (list B))
    : M S (list B) :=
  match xs with
  | [] => mret []
  | x :: xs' => ys ← body x; zs ← for_yield xs' body; mret (ys ++ zs)
  end.

(** [range(n)] *)
Definition range (n : Z) : list Z := seqZ 0 n.

Definition grid_sequence : M (list str) (list (Z * Z)) :=
  rows ← grid_rows;
  for_yield (range rows) (fun r =>
    cols ← grid_cols;
    for_yield (range cols) (fun c => mret [(r, c)])).

Definition grid_swap (x y : Z * Z) : M (list str) unit :=
  xv ← grid_get_or_none x;
  yv ← grid_get_or_none y;
  match xv, yv with
  | Some xv', Some yv' => grid_set_rc x yv';; grid_set_rc y xv'
  | _, _ => mret tt
  end.

End grid.

(** * Vocabulary of the statements *)

Section hex_vocabulary.
Local Open Scope Z_scope.

(** The value of a hexadecimal digit, read off the digit alphabet. *)
Fixpoint index_of (c : ascii) (alphabet : str) : option Z :=
  match alphabet with
  | [] => None
  | a :: alphabet' =>
      if Ascii.eqb a c then Some 0 else Z.succ <$> index_of c alphabet'
  end.

Definition hex_value (c : ascii) : option Z :=
  match index_of c (py "0123456789abcdef") with
  | Some d => Some d
  | None => index_of c (py "0123456789ABCDEF")
  end.

(** The value of a string that is one hexadecimal digit. *)
Definition single_hex_digit (ch : str) : option Z :=
  match ch with
  | [c] => hex_value c
  | _ => None
  end.

Definition bit_char (d : Z) (k : Z) : ascii :=
  if Z.testbit d k then "1"%char else "0"%char.

(** Four binary digits, the most significant first. *)
Definition nibble (d : Z) : str :=
  [bit_char d 3; bit_char d 2; bit_char d 1; bit_char d 0].

(** The contract at [ch]: the four binary digits of a hexadecimal digit,
    [ValueError] for anything else. *)
Definition hex_to_binary_spec (ch : str) : Prop :=
  match single_hex_digit ch with
  | Some d => 0 <= d < 16 /\ hex_to_binary ch = Ret (nibble d)
  | None => hex_to_binary ch = Raise ValueError
  end.

End hex_vocabulary.

Section permutation_vocabulary.
Context {T : Type}.

(** All sequences of length [n] over [ops], in the order of enumeration. *)
Fixpoint sequences (ops : list T) (n : nat) : list (list T) :=
  match n with
  | O => [[]]
  | S n' => op ← ops; (cons op) <$> sequences ops n'
  end.

(** What a run from store [h] to store [h'] has done when it appended to
    the list at [result], which held [rs], references [copies] to new lists
    holding the sequences [seqs], and left every other list of [h] as it
    was. *)
Definition appended (h h' : gmap nat (list (val T))) (result : nat)
    (rs : list (val T)) (copies : list nat) (seqs : list (list T)) : Prop :=
  h' !! result = Some (rs ++ (Ref <$> copies)) /\
  (forall l, l ∈ dom h -> l ≠ result -> h' !! l = h !! l) /\
  NoDup copies /\
  (forall l, l ∈ copies -> l ∉ dom h) /\
  Forall2 (fun l s => h' !! l = Some (Elem <$> s)) copies seqs.

End permutation_vocabulary.

Section grid_vocabulary.
Local Open Scope Z_scope.

Definition rowCount (grid : list str) : Z := len grid.

Definition colCount (grid : list str) : Z :=
  match grid with
  | [] => 0
  | row :: _ => len row
  end.

(** A coordinate is valid when [0 <= r < rowCount] and [0 <= c < colCount]. *)
Definition valid_coord (grid : list str) (rc : Z * Z) : Prop :=
  (0 <= rc.1 < rowCount grid) /\ (0 <= rc.2 < colCount grid).

(** All rows have the length of the first one. *)
Definition rectangular (grid : list str) : Prop :=
  Forall (fun row => len row = colCount grid) grid.

(** The character at row [r], column [c], counted from 0. *)
Definition cell (grid : list str) (r c : nat) : option ascii :=
  row ← grid !! r; row !! c.

(** Row-major order: the coordinate that comes at position [i]. *)
Definition row_major (cols : Z) (i : Z) : Z * Z := (i / cols, i mod cols).

End grid_vocabulary.

(** * Further helpers of the library *)

(** ** Interval helpers *)

(** A [range] object; [int_range_intersects] reads [start] and [stop]
    only. *)
Record py_range : Set := { start : Z; stop : Z; step : Z }.

Section intervals.
Local Open Scope Z_scope.

Definition int_range_intersects (a b : py_range) : bool :=
  if (start a >=? stop a) || (start b >=? stop b) then false
  else
    let a_start := start a in
    let a_end_inclusive := stop a - 1 in
    let b_start := start b in
    let b_end_inclusive := stop b - 1 in
    (a_start <=? b_end_inclusive) && (a_end_inclusive >=? b_start).

(** The integers of the half-open interval from [start] to [stop]. *)
Definition in_interval (a : py_range) (x : Z) : Prop := start a <= x < stop a.

End intervals.

(** ** Coordinates *)

Section coordinates.
Local Open Scope Z_scope.

Definition get_distance (a b : Z * Z) : Z :=
  Z.abs (a.1 - b.1) + Z.abs (a.2 - b.2).

Definition next_pos (rc : Z * Z) (d : Dir) : outcome (Z * Z) :=
  let '(r, c) := rc in
  if decide (d = UP) then Ret (r - 1, c)
  else if decide (d = DOWN) then Ret (r + 1, c)
  else if decide (d = LEFT) then Ret (r, c - 1)
  else if decide (d = RIGHT) then Ret (r, c + 1)
  else Raise ValueError.

End coordinates.

(** ** More grid accessors *)



(** ** Pairs of a list *)

(** [range(a, b)] *)
Definition range2 (a b : Z) : list Z := seqZ a (b - a).

(** The sequence [lst] is the object the generator reads. *)
Definition unique_pairs {T} : M (list T) (list (T * T)) :=
  lst ← m_get;
  let n := len lst in
  for_yield (range n) (fun i =>
    for_yield (range2 (i + 1) n) (fun j =>
      lst' ← m_get;
      x ← m_lift (getitem lst' i);
      y ← m_lift (getitem lst' j);
      mret [(x, y)])).

(** * Vocabulary of the further statements *)

(** The position that Python's index [i] denotes in a sequence of [n]
    items. *)
Definition index_at (n : nat) (i : Z) : option nat :=
  if decide (0 <= i < Z.of_nat n)%Z then Some (Z.to_nat i)
  else if decide (- Z.of_nat n <= i < 0)%Z then Some (Z.to_nat (i + Z.of_nat n))
  else None.

(** The row and column, counted from 0, of the cell that [grid[r][c]]
    denotes. *)
Definition position (grid : list str) (rc : Z * Z) : option (nat * nat) :=
  i ← index_at (length grid) rc.1;
  row ← grid !! i;
  j ← index_at (length row) rc.2;
  Some (i, j).

(** The grid with the character at row [i], column [j] replaced. *)
Definition set_cell (grid : list str) (i j : nat) (ch : ascii) : list str :=
  match grid !! i with
  | Some row => <[i := <[j := ch]> row]> grid
  | None => grid
  end.

(** The lengths of the rows. *)
Definition shape (grid : list str) : list nat := length <$> grid.

(** The value of a string of binary digits read after [acc]. *)
Definition bits_value (acc : Z) (s : str) : Z :=
  fold_left (fun a c => (a * 2 + digit_value c)%Z) s acc.

Definition is_bit (c : ascii) : Prop := c = "0"%char \/ c = "1"%char.

(** The grid with the cells of [x] and [y] exchanged, when both coordinates
    denote a cell; the grid itself otherwise. *)
Definition swapped (grid : list str) (x y : Z * Z) : list str :=
  match position grid x, position grid y with
  | Some (i1, j1), Some (i2, j2) =>
      match cell grid i1 j1, cell grid i2 j2 with
      | Some a, Some b => set_cell (set_cell grid i1 j1 b) i2 j2 a
      | _, _ => grid
      end
  | _, _ => grid
  end.

(** ** Printing a grid

    The lines written to the output so far are the store; [print_grid]
    reads the grid it is given. *)




(** * Properties *)

(** ** The embedding on concrete inputs *)

Example cap_examples :
  cap 7 3 = Ret 1%Z /\ cap (-3) 3 = Ret 3%Z /\ cap 5 0 = Raise ZeroDivisionError.
Proof. repeat split; reflexivity. Qed.

Example gcd_examples :
  gcd 12 (-18) = 6%Z /\ gcd (-4) 6 = 2%Z /\ gcd 0 0 = 0%Z /\
  lcm 4 6 = Ret 12%Z /\ lcm 0 0 = Raise ZeroDivisionError.
Proof. repeat split; reflexivity. Qed.

Example hex_to_binary_examples :
  hex_to_binary (py "a") = Ret (py "1010") /\
  hex_to_binary (py "F") = Ret (py "1111") /\
  hex_to_binary (py "0") = Ret (py "0000") /\
  hex_to_binary (py "-1") = Ret (py "00b1") /\
  hex_to_binary (py " 0x_f ") = Ret (py "1111") /\
  hex_to_binary (py "g") = Raise ValueError /\
  hex_to_binary (py "") = Raise ValueError /\
  hex_to_binary (py "1__0") = Raise ValueError /\
  hex_to_binary (py "0x") = Raise ValueError.
Proof. repeat split; vm_compute; reflexivity. Qed.

Example grid_examples :
  eval (grid_get 0 1) [py "ab"; py "cd"] = Ret (py "b") /\
  eval (grid_get 0 2) [py "ab"; py "cd"] = Raise IndexError /\
  eval (grid_is_inbound (0, 2)%Z) [py "ab"; py "cd"] = Ret false /\
  eval (grid_get_or_none (0, 2)%Z) [py "ab"; py "cd"] = Ret None /\
  eval grid_sequence [py "ab"; py "cd"]
    = Ret [(0, 0)%Z; (0, 1)%Z; (1, 0)%Z; (1, 1)%Z] /\
  grid_swap (0, 0)%Z (1, 1)%Z [py "ab"; py "cd"]
    = (Ret tt, [py "db"; py "ca"]) /\
  grid_swap (0, 0)%Z (1, 2)%Z [py "ab"; py "cd"]
    = (Ret tt, [py "ab"; py "cd"]) /\
  eval (grid_int 0 0) [py "7x"] = Ret (Some 7%Z) /\
  eval (grid_int 0 1) [py "7x"] = Ret None.
Proof. repeat split; vm_compute; reflexivity. Qed.

(** [permute([], 3, results, {0, 1})] appends eight lists; one recursion
    level too few raises. *)
Example permute_examples :
  (length <$> exec (permute 4 0 3 1 ({[ 0%nat; 1%nat ]} : gset nat))
     ({[ 0%nat := []; 1%nat := [] ]} : gmap nat (list (val nat))) !! 1%nat)
    = Some 8%nat /\
  eval (permute 3 0 3 1 ({[ 0%nat; 1%nat ]} : gset nat))
    ({[ 0%nat := []; 1%nat := [] ]} : gmap nat (list (val nat)))
    = Raise RecursionError.
Proof. split; vm_compute; reflexivity. Qed.

(** ** Running monadic code *)

Lemma m_bind_ret {S A B} (m : M S A) (f : A -> M S B) (s s' : S) (a : A) :
  m s = (Ret a, s') -> (m ≫= f) s = f a s'.
Proof. intros Hm. unfold mbind, M_bind, m_bind. rewrite Hm. reflexivity. Qed.

Lemma m_bind_raise {S A B} (m : M S A) (f : A -> M S B) (s s' : S) (e : exn) :
  m s = (Raise e, s') -> (m ≫= f) s = (Raise e, s').
Proof. intros Hm. unfold mbind, M_bind, m_bind. rewrite Hm. reflexivity. Qed.

Lemma for_yield_pure {S A B} (xs : list A) (body : A -> M S (list B))
    (f : A -> list B) (s : S) :
  (forall x, x ∈ xs -> body x s = (Ret (f x), s)) ->
  for_yield xs body s = (Ret (concat (f <$> xs)), s).
Proof.
  induction xs as [| x xs IH]; intros Hbody; [reflexivity |].
  cbn [for_yield].
  rewrite (m_bind_ret _ _ s s (f x)) by (apply Hbody; left).
  rewrite (m_bind_ret _ _ s s (concat (f <$> xs))).
  - reflexivity.
  - apply IH. intros y Hy. apply Hbody. by right.
Qed.

(** ** Math helpers *)

Section math_facts.
Local Open Scope Z_scope.

Lemma py_mod_ok (a b : Z) : b ≠ 0 -> py_mod a b = Ret (a mod b).
Proof. intros Hb. unfold py_mod. destruct (Z.eqb_spec b 0); [lia | reflexivity]. Qed.

Lemma cap_eq (value n : Z) :
  n ≠ 0 -> cap value n = Ret (if value mod n =? 0 then n else value mod n).
Proof. intros Hn. unfold cap. rewrite py_mod_ok by assumption. reflexivity. Qed.

(** C5: for [n > 0], [cap value n] returns a number of [[1, n]]; [cap n n]
    is [n] and [cap (n + 1) n] is [1]. *)
Theorem cap_in_range (value n : Z) :
  0 < n ->
  (exists r, cap value n = Ret r /\ 1 <= r <= n) /\
  cap n n = Ret n /\
  cap (n + 1) n = Ret 1.
Proof.
  intros Hn. rewrite !cap_eq by lia. repeat split.
  - eexists. split; [reflexivity |].
    pose proof (Z.mod_pos_bound value n Hn).
    destruct (Z.eqb_spec (value mod n) 0); lia.
  - rewrite Z.mod_same by lia. reflexivity.
  - destruct (Z.eq_dec n 1) as [-> | Hn1]; [reflexivity |].
    replace (n + 1) with (1 + 1 * n) by lia.
    rewrite Z.mod_add by lia. rewrite Z.mod_small by lia. reflexivity.
Qed.

Lemma cap_in_range_witness :
  (exists r, cap (-7) 5 = Ret r /\ 1 <= r <= 5) /\
  cap 5 5 = Ret 5 /\
  cap (5 + 1) 5 = Ret 1.
Proof. apply (cap_in_range (-7) 5). lia. Defined.

Lemma gcd_loop_abs (a b : Z) : Z.abs (gcd_loop a b) = Z.gcd a b.
Proof.
  funelim (gcd_loop a b).
  - subst. rewrite Z.gcd_0_r. reflexivity.
  - match goal with IH : Z.abs (gcd_loop _ _) = Z.gcd _ _ |- _ => rewrite IH end.
    rewrite (Z.gcd_comm b), Z.gcd_mod by assumption. apply Z.gcd_comm.
Qed.

Lemma gcd_is_Zgcd (a b : Z) : gcd a b = Z.gcd a b.
Proof. apply gcd_loop_abs. Qed.

(** C9: [gcd] is symmetric and non-negative, [gcd a 0 = |a|], and for non-zero
    [a] and [b], [lcm a b] returns a number whose product with [gcd a b] is
    [|a * b|]. *)
Theorem gcd_lcm_laws (a b : Z) :
  gcd a b = gcd b a /\
  gcd a 0 = Z.abs a /\
  0 <= gcd a b /\
  (a ≠ 0 -> b ≠ 0 ->
   exists l, lcm a b = Ret l /\ l * gcd a b = Z.abs (a * b)).
Proof.
  rewrite !gcd_is_Zgcd. repeat split.
  - apply Z.gcd_comm.
  - apply Z.gcd_0_r.
  - apply Z.gcd_nonneg.
  - intros Ha Hb. unfold lcm, py_floordiv. rewrite gcd_is_Zgcd.
    destruct (Z.eqb_spec (Z.gcd a b) 0) as [H0 | H0].
    + apply Z.gcd_eq_0_l in H0. contradiction.
    + eexists. split; [reflexivity |].
      assert (Hd : (Z.gcd a b | Z.abs (a * b))).
      { apply Z.divide_abs_r, Z.divide_mul_l, Z.gcd_divide_l. }
      destruct Hd as [q Hq]. rewrite Hq, Z.div_mul by assumption. reflexivity.
Qed.

Lemma gcd_lcm_laws_witness :
  gcd 4 (-6) = gcd (-6) 4 /\
  gcd 4 0 = Z.abs 4 /\
  0 <= gcd 4 (-6) /\
  (4 ≠ 0 -> -6 ≠ 0 ->
   exists l, lcm 4 (-6) = Ret l /\ l * gcd 4 (-6) = Z.abs (4 * -6)).
Proof. apply (gcd_lcm_laws 4 (-6)). Defined.

End math_facts.

(** ** Directions *)

(** C8: four clockwise quarter turns are the identity, [rotate] and
    [counter_clockwise] undo each other, and [rotate] follows the cycle
    UP, RIGHT, DOWN, LEFT, UP. *)
Theorem rotate_cycle (d : Dir) :
  (d1 ← rotate d; d2 ← rotate d1; d3 ← rotate d2; rotate d3) = Ret d /\
  (d1 ← rotate d; counter_clockwise d1) = Ret d /\
  (d1 ← counter_clockwise d; rotate d1) = Ret d /\
  rotate UP = Ret RIGHT /\ rotate RIGHT = Ret DOWN /\
  rotate DOWN = Ret LEFT /\ rotate LEFT = Ret UP.
Proof. destruct d; repeat split; reflexivity. Qed.

(** ** Hexadecimal digits *)

Section hex_facts.
Local Open Scope Z_scope.

(** C4, amended: on a string of at most one character, [hex_to_binary]
    returns the four binary digits of a hexadecimal digit and raises
    [ValueError] on anything else. *)
Theorem hex_to_binary_single (ch : str) :
  (length ch <= 1)%nat -> hex_to_binary_spec ch.
Proof.
  intros Hlen. destruct ch as [| c [| c' ch']].
  - reflexivity.
  - clear Hlen. destruct c as [[] [] [] [] [] [] [] []];
      vm_compute; first [reflexivity | by intuition discriminate].
  - simpl in Hlen. lia.
Qed.

Lemma hex_to_binary_single_witness : hex_to_binary_spec (py "c").
Proof. apply (hex_to_binary_single (py "c")). simpl. lia. Defined.

(** C4 as stated fails on longer strings: ["10"] is no hexadecimal digit,
    and [hex_to_binary] returns five characters for it. *)
Lemma hex_to_binary_two_digits :
  single_hex_digit (py "10") = None /\
  hex_to_binary (py "10") = Ret (py "10000") /\
  ~ hex_to_binary_spec (py "10").
Proof. repeat split. vm_compute. discriminate. Qed.

End hex_facts.

(** ** Sequences *)

Section sequence_facts.
Local Open Scope Z_scope.

Lemma norm_index_nonneg (n i : Z) :
  0 <= i ->
  norm_index n i = if i <? n then Ret (Z.to_nat i) else Raise IndexError.
Proof.
  intros Hi. unfold norm_index.
  destruct (Z.ltb_spec i 0); [lia |].
  destruct (Z.leb_spec 0 i); [| lia]. reflexivity.
Qed.

Lemma getitem_in_range {A} (xs : list A) (i : Z) :
  0 <= i < len xs ->
  exists x, xs !! Z.to_nat i = Some x /\ getitem xs i = Ret x.
Proof.
  intros Hi. unfold getitem. rewrite norm_index_nonneg by lia.
  destruct (Z.ltb_spec i (len xs)); [| lia].
  destruct (lookup_lt_is_Some_2 xs (Z.to_nat i)) as [x Hx].
  { unfold len in Hi. lia. }
  exists x. split; [assumption |]. cbn. rewrite Hx. reflexivity.
Qed.

Lemma getitem_beyond {A} (xs : list A) (i : Z) :
  len xs <= i -> getitem xs i = Raise IndexError.
Proof.
  intros Hi. unfold getitem. rewrite norm_index_nonneg by (unfold len in *; lia).
  destruct (Z.ltb_spec i (len xs)); [lia | reflexivity].
Qed.

End sequence_facts.

(** ** Grids *)

Section grid_facts.
Local Open Scope Z_scope.

Lemma grid_rows_run (grid : list str) :
  grid_rows grid = (Ret (rowCount grid), grid).
Proof. reflexivity. Qed.

Lemma grid_cols_run (grid : list str) :
  grid_cols grid = (Ret (colCount grid), grid).
Proof. destruct grid; reflexivity. Qed.

Lemma grid_is_inbound_run (grid : list str) (rc : Z * Z) :
  grid_is_inbound rc grid = (Ret (bool_decide (valid_coord grid rc)), grid).
Proof.
  destruct rc as [r c]. unfold grid_is_inbound. m_unfold.
  destruct grid as [| row grid].
  - cbn. f_equal. f_equal. symmetry. apply bool_decide_eq_false.
    unfold valid_coord, rowCount; cbn. lia.
  - cbn. f_equal. f_equal.
    destruct (Z.leb_spec 0 r), (Z.leb_spec r (len (row :: grid) - 1)),
      (Z.leb_spec 0 c), (Z.leb_spec c (len row - 1)); cbn; symmetry;
      first [apply bool_decide_eq_true | apply bool_decide_eq_false];
      unfold valid_coord, rowCount, colCount; cbn [fst snd]; lia.
Qed.

Lemma concat_singletons {A B} (f : A -> B) (xs : list A) :
  concat ((fun x => [f x]) <$> xs) = f <$> xs.
Proof. induction xs as [| x xs IH]; [reflexivity |]. cbn. by rewrite IH. Qed.

Lemma grid_sequence_run (grid : list str) :
  grid_sequence grid =
    (Ret (concat ((fun r => (fun c => (r, c)) <$> range (colCount grid))
                    <$> range (rowCount grid))), grid).
Proof.
  unfold grid_sequence.
  rewrite (m_bind_ret _ _ _ _ _ (grid_rows_run grid)).
  apply for_yield_pure. intros r _.
  rewrite (m_bind_ret _ _ _ _ _ (grid_cols_run grid)).
  rewrite (for_yield_pure _ _ (fun c => [(r, c)])) by reflexivity.
  by rewrite concat_singletons.
Qed.

Lemma row_major_length (R C : nat) :
  length (concat ((fun r => (fun c => (r, c)) <$> seqZ 0 (Z.of_nat C))
                    <$> seqZ 0 (Z.of_nat R))) = (R * C)%nat.
Proof.
  induction R as [| R IH]; [reflexivity |].
  rewrite seqZ_S, fmap_app, concat_app, length_app, IH. cbn.
  rewrite app_nil_r, length_fmap, length_seqZ. lia.
Qed.

Lemma row_major_lookup (R C i : nat) :
  (i < R * C)%nat ->
  concat ((fun r => (fun c => (r, c)) <$> seqZ 0 (Z.of_nat C))
            <$> seqZ 0 (Z.of_nat R)) !! i
    = Some (row_major (Z.of_nat C) (Z.of_nat i)).
Proof.
  revert i. induction R as [| R IH]; intros i Hi; [lia |].
  rewrite seqZ_S, fmap_app, concat_app. cbn [fmap list_fmap concat].
  rewrite app_nil_r.
  destruct (decide (i < R * C)%nat) as [Hlt | Hge].
  - rewrite lookup_app_l by (rewrite row_major_length; lia). by apply IH.
  - rewrite lookup_app_r by (rewrite row_major_length; lia).
    rewrite row_major_length.
    rewrite list_lookup_fmap, lookup_seqZ_lt by lia. cbn.
    unfold row_major. f_equal. f_equal.
    + apply (Z.div_unique_pos _ _ _ (Z.of_nat (i - R * C))); lia.
    + apply (Z.mod_unique_pos _ _ (Z.of_nat R)); lia.
Qed.

(** C7: [grid_sequence] yields [rows * cols] coordinates, all distinct, in
    row-major order: position [i] holds row [i / cols], column
    [i mod cols]. *)
Theorem grid_sequence_row_major (grid : list str) :
  exists coords,
    eval grid_sequence grid = Ret coords /\
    len coords = rowCount grid * colCount grid /\
    NoDup coords /\
    (forall i, 0 <= i < rowCount grid * colCount grid ->
       coords !! Z.to_nat i = Some (row_major (colCount grid) i)).
Proof.
  unfold eval. rewrite grid_sequence_run. cbn [fst]. eexists. split; [reflexivity |].
  unfold rowCount, len, range.
  set (R := length grid).
  assert (HC : colCount grid = Z.of_nat (Z.to_nat (colCount grid))).
  { unfold colCount, len. destruct grid; lia. }
  rewrite HC. set (C := Z.to_nat (colCount grid)). clearbody R C. clear.
  assert (Hlook : forall i, 0 <= i < Z.of_nat R * Z.of_nat C ->
    concat ((fun r => (fun c => (r, c)) <$> seqZ 0 (Z.of_nat C))
              <$> seqZ 0 (Z.of_nat R)) !! Z.to_nat i
      = Some (row_major (Z.of_nat C) i)).
  { intros i Hi. rewrite row_major_lookup by nia. by rewrite Z2Nat.id by lia. }
  split; [rewrite row_major_length; lia |]. split; [| exact Hlook].
  apply NoDup_alt. intros i j [r c] Hi Hj.
  assert (Hi' := lookup_lt_Some _ _ _ Hi). assert (Hj' := lookup_lt_Some _ _ _ Hj).
  rewrite row_major_length in Hi', Hj'.
  rewrite row_major_lookup in Hi, Hj by assumption.
  unfold row_major in Hi, Hj.
  assert (HCpos : 0 < Z.of_nat C) by nia.
  pose proof (Z.div_mod (Z.of_nat i) (Z.of_nat C)).
  pose proof (Z.div_mod (Z.of_nat j) (Z.of_nat C)).
  injection Hi as Hi1 Hi2. injection Hj as Hj1 Hj2.
  rewrite Hi1, Hi2 in *. rewrite Hj1, Hj2 in *. lia.
Qed.

(** *** Reading a cell *)

Lemma grid_item_run (grid : list str) (r c : Z) :
  grid_item r c grid =
    (row ← getitem grid r; str_getitem row c, grid).
Proof.
  unfold grid_item. m_unfold. destruct (getitem grid r); reflexivity.
Qed.

Lemma grid_get_or_none_run (grid : list str) (r c : Z) :
  grid_get_or_none (r, c) grid =
    (match eval (grid_get r c) grid with
     | Ret v => Ret (Some v)
     | Raise IndexError => Ret None
     | Raise e => Raise e
     end, grid).
Proof.
  unfold grid_get_or_none, grid_get, eval, m_try.
  unfold mbind at 1. unfold M_bind, m_bind. rewrite grid_item_run. cbn [fst].
  destruct (getitem grid r ≫= _) as [v | []]; reflexivity.
Qed.

Lemma grid_int_state (grid : list str) (r c : Z) :
  exec (grid_int r c) grid = grid.
Proof.
  unfold grid_int, exec, m_try.
  unfold mbind at 1. unfold M_bind, m_bind. rewrite grid_item_run.
  destruct (getitem grid r ≫= _) as [v | e]; cbn.
  - m_unfold. destruct (py_int v 10) as [n | []]; reflexivity.
  - destruct e; reflexivity.
Qed.

(** *** Writing a cell *)

Lemma length_list_of_str (row : str) : length (list_of_str row) = length row.
Proof. apply length_fmap. Qed.

Lemma join_insert_char (row : str) (k : nat) (ch : ascii) :
  join (<[k := [ch]]> (list_of_str row)) = <[k := ch]> row.
Proof.
  revert k. induction row as [| a row IH]; intros k; [reflexivity |].
  destruct k as [| k]; cbn.
  - f_equal. clear. induction row as [| b row IH]; [reflexivity |].
    cbn. by rewrite IH.
  - f_equal. apply IH.
Qed.

Lemma grid_set_run (grid : list str) (r c : Z) (ch : ascii) (row : str) :
  0 <= r < len grid -> 0 <= c ->
  grid !! Z.to_nat r = Some row ->
  grid_set r c [ch] grid =
    if c <? len row
    then (Ret tt, <[Z.to_nat r := <[Z.to_nat c := ch]> row]> grid)
    else (Raise IndexError, grid).
Proof.
  intros Hr Hc Hrow.
  destruct (getitem_in_range grid r Hr) as (row' & Hrow' & Hget).
  assert (row' = row) as -> by congruence.
  unfold grid_set, setitem. m_unfold. rewrite Hget.
  unfold len at 1. rewrite length_list_of_str. fold (len row).
  rewrite !norm_index_nonneg by lia.
  destruct (Z.ltb_spec c (len row)); cbn; [| reflexivity].
  destruct (Z.ltb_spec r (len grid)); [| lia]. cbn.
  by rewrite join_insert_char.
Qed.

Lemma rectangular_row (grid : list str) (r : nat) (row : str) :
  rectangular grid -> grid !! r = Some row -> len row = colCount grid.
Proof. intros Hrect Hrow. exact (proj1 (Forall_lookup _ _) Hrect r row Hrow). Qed.

(** C10: at a valid coordinate and with a one-character value, [grid_set]
    keeps the number of rows and every row but row [r]; row [r] keeps its
    length and every cell but that of column [c]; on a rectangular grid the
    call returns and the cell holds the value.  The accessors leave the
    grid as it is. *)
Theorem grid_set_frame (grid : list str) (r c : Z) (ch : ascii) :
  valid_coord grid (r, c) ->
  length (exec (grid_set r c [ch]) grid) = length grid /\
  (forall r', r' ≠ Z.to_nat r ->
     exec (grid_set r c [ch]) grid !! r' = grid !! r') /\
  (exists row row',
     grid !! Z.to_nat r = Some row /\
     exec (grid_set r c [ch]) grid !! Z.to_nat r = Some row' /\
     length row' = length row /\
     forall c', c' ≠ Z.to_nat c -> row' !! c' = row !! c') /\
  (rectangular grid ->
     eval (grid_set r c [ch]) grid = Ret tt /\
     cell (exec (grid_set r c [ch]) grid) (Z.to_nat r) (Z.to_nat c) = Some ch) /\
  (forall r0 c0,
     exec (grid_get r0 c0) grid = grid /\
     exec (grid_get_or_none (r0, c0)) grid = grid /\
     exec (grid_int r0 c0) grid = grid /\
     exec (grid_is_inbound (r0, c0)) grid = grid) /\
  exec grid_sequence grid = grid.
Proof.
  intros [[Hr0 Hr1] [Hc0 Hc1]]. cbn [fst snd] in *. unfold rowCount in Hr1.
  destruct (getitem_in_range grid r (conj Hr0 Hr1)) as (row & Hrow & _).
  assert (Hrn : (Z.to_nat r < length grid)%nat) by (unfold len in Hr1; lia).
  unfold exec, eval. rewrite (grid_set_run grid r c ch row) by (split || idtac; assumption).
  split; [| split; [| split; [| split; [| split]]]].
  - destruct (c <? len row); cbn; [apply length_insert | reflexivity].
  - intros r' Hr'. destruct (c <? len row); cbn; [| reflexivity].
    by apply list_lookup_insert_ne.
  - exists row. destruct (c <? len row); cbn.
    + exists (<[Z.to_nat c := ch]> row). repeat split; [done | | |].
      * by apply list_lookup_insert_eq.
      * apply length_insert.
      * intros c' Hc'. by apply list_lookup_insert_ne.
    + exists row. repeat split; done.
  - intros Hrect. pose proof (rectangular_row grid _ row Hrect Hrow) as Hlen.
    destruct (Z.ltb_spec c (len row)); [| lia]. cbn. split; [reflexivity |].
    unfold cell. rewrite list_lookup_insert_eq by assumption. cbn.
    apply list_lookup_insert_eq. unfold len in *. lia.
  - intros r0 c0. repeat split.
    + unfold grid_get. by rewrite grid_item_run.
    + by rewrite grid_get_or_none_run.
    + apply grid_int_state.
    + by rewrite grid_is_inbound_run.
  - by rewrite grid_sequence_run.
Qed.

Lemma grid_set_frame_witness :
  length (exec (grid_set 1 0 ["x"%char]) [py "ab"; py "cd"])
    = length [py "ab"; py "cd"] /\
  (forall r', r' ≠ Z.to_nat 1 ->
     exec (grid_set 1 0 ["x"%char]) [py "ab"; py "cd"] !! r'
       = [py "ab"; py "cd"] !! r') /\
  (exists row row',
     [py "ab"; py "cd"] !! Z.to_nat 1 = Some row /\
     exec (grid_set 1 0 ["x"%char]) [py "ab"; py "cd"] !! Z.to_nat 1 = Some row' /\
     length row' = length row /\
     forall c', c' ≠ Z.to_nat 0 -> row' !! c' = row !! c') /\
  (rectangular [py "ab"; py "cd"] ->
     eval (grid_set 1 0 ["x"%char]) [py "ab"; py "cd"] = Ret tt /\
     cell (exec (grid_set 1 0 ["x"%char]) [py "ab"; py "cd"])
       (Z.to_nat 1) (Z.to_nat 0) = Some "x"%char) /\
  (forall r0 c0,
     exec (grid_get r0 c0) [py "ab"; py "cd"] = [py "ab"; py "cd"] /\
     exec (grid_get_or_none (r0, c0)) [py "ab"; py "cd"] = [py "ab"; py "cd"] /\
     exec (grid_int r0 c0) [py "ab"; py "cd"] = [py "ab"; py "cd"] /\
     exec (grid_is_inbound (r0, c0)) [py "ab"; py "cd"] = [py "ab"; py "cd"]) /\
  exec grid_sequence [py "ab"; py "cd"] = [py "ab"; py "cd"].
Proof.
  apply (grid_set_frame [py "ab"; py "cd"] 1 0 "x"%char).
  unfold valid_coord, rowCount, colCount, len. simpl. lia.
Defined.

(** *** Indexing, with Python's negative indices *)

Lemma getitem_returns_iff {A} (xs : list A) (i : Z) :
  (exists x, getitem xs i = Ret x) <-> - len xs <= i < len xs.
Proof.
  unfold getitem, norm_index.
  destruct (Z.ltb_spec i 0) as [Hneg | Hpos];
    [destruct (Z.leb_spec 0 (i + len xs)), (Z.ltb_spec (i + len xs) (len xs))
    | destruct (Z.leb_spec 0 i), (Z.ltb_spec i (len xs))]; cbn;
    try (split; [intros [x Hx]; discriminate | lia]).
  - split; [lia | intros _].
    destruct (lookup_lt_is_Some_2 xs (Z.to_nat (i + len xs))) as [x Hx];
      [unfold len in *; lia |].
    rewrite Hx. by exists x.
  - split; [lia | intros _].
    destruct (lookup_lt_is_Some_2 xs (Z.to_nat i)) as [x Hx];
      [unfold len in *; lia |].
    rewrite Hx. by exists x.
Qed.

Lemma getitem_raises {A} (xs : list A) (i : Z) (e : exn) :
  getitem xs i = Raise e -> e = IndexError.
Proof.
  unfold getitem, norm_index.
  destruct (_ && _); cbn; [| congruence].
  destruct (xs !! _); congruence.
Qed.

Lemma getitem_elem {A} (xs : list A) (i : Z) (x : A) :
  getitem xs i = Ret x -> x ∈ xs.
Proof.
  unfold getitem, norm_index.
  destruct (_ && _); cbn; [| discriminate].
  destruct (xs !! _) as [y |] eqn:Hy; [| discriminate].
  intros [= <-]. by eapply list_elem_of_lookup_2.
Qed.

(** On a rectangular grid, [grid_get] returns exactly on the coordinates
    Python accepts, which include the negative ones down to [- rowCount] and
    [- colCount]; everywhere else it raises [IndexError]. *)
Lemma grid_get_returns_iff (grid : list str) (r c : Z) :
  rectangular grid ->
  (exists v, eval (grid_get r c) grid = Ret v) <->
  (- rowCount grid <= r < rowCount grid /\ - colCount grid <= c < colCount grid).
Proof.
  intros Hrect. unfold eval, grid_get. rewrite grid_item_run. cbn [fst].
  unfold rowCount. rewrite <- getitem_returns_iff. split.
  - intros [v Hv]. destruct (getitem grid r) as [row |] eqn:Hrow; [| discriminate].
    split; [by exists row |].
    assert (Hlen : len row = colCount grid).
    { apply getitem_elem in Hrow. exact (proj1 (Forall_forall _ _) Hrect _ Hrow). }
    rewrite <- Hlen. apply getitem_returns_iff. cbn in Hv. unfold str_getitem in Hv.
    destruct (getitem row c) as [ch |]; [by exists ch | discriminate].
  - intros [[row Hrow] Hc]. rewrite Hrow. cbn.
    assert (Hlen : len row = colCount grid).
    { apply getitem_elem in Hrow. exact (proj1 (Forall_forall _ _) Hrect _ Hrow). }
    rewrite <- Hlen in Hc. apply getitem_returns_iff in Hc as [ch Hch].
    unfold str_getitem. rewrite Hch. by eexists.
Qed.

Lemma grid_get_raises (grid : list str) (r c : Z) (e : exn) :
  eval (grid_get r c) grid = Raise e -> e = IndexError.
Proof.
  unfold eval, grid_get. rewrite grid_item_run. cbn [fst].
  destruct (getitem grid r) as [row |] eqn:Hrow; cbn.
  - unfold str_getitem. destruct (getitem row c) eqn:Hc; cbn; [discriminate |].
    intros [= <-]. by eapply getitem_raises.
  - intros [= <-]. by eapply getitem_raises.
Qed.

(** On a rectangular grid and for a coordinate without negative component,
    [grid_get_or_none] gives what [grid_get] returns when the coordinate is
    valid, and [None] otherwise. *)
Lemma grid_get_or_none_nonneg (grid : list str) (r c : Z) :
  rectangular grid -> 0 <= r -> 0 <= c ->
  if decide (valid_coord grid (r, c))
  then exists v, eval (grid_get r c) grid = Ret v /\
                 eval (grid_get_or_none (r, c)) grid = Ret (Some v)
  else eval (grid_get_or_none (r, c)) grid = Ret None.
Proof.
  intros Hrect Hr Hc. unfold eval at 2 3. rewrite grid_get_or_none_run. cbn [fst].
  pose proof (grid_get_returns_iff grid r c Hrect) as Hiff.
  destruct (eval (grid_get r c) grid) as [v | e] eqn:Hget.
  - destruct (proj1 Hiff) as [Hr' Hc']; [by exists v |].
    destruct (decide _) as [_ | Hnv]; [by exists v |].
    exfalso. apply Hnv. split; cbn; lia.
  - rewrite (grid_get_raises grid r c e Hget).
    destruct (decide _) as [[Hr' Hc'] | _]; [| reflexivity].
    cbn [fst snd] in *. destruct (proj2 Hiff) as [v Hv]; [lia | discriminate].
Qed.

Lemma grid_get_valid (grid : list str) (r c : Z) :
  rectangular grid -> valid_coord grid (r, c) ->
  exists row ch,
    grid !! Z.to_nat r = Some row /\ row !! Z.to_nat c = Some ch /\
    eval (grid_get r c) grid = Ret [ch].
Proof.
  intros Hrect [Hr Hc]. cbn [fst snd] in *.
  destruct (getitem_in_range grid r Hr) as (row & Hrow & Hget).
  rewrite <- (rectangular_row grid _ row Hrect Hrow) in Hc.
  destruct (getitem_in_range row c Hc) as (ch & Hch & Hgetc).
  exists row, ch. repeat split; [assumption.. |].
  unfold eval, grid_get. rewrite grid_item_run. cbn [fst]. rewrite Hget. cbn.
  unfold str_getitem. by rewrite Hgetc.
Qed.

Lemma cell_insert (grid : list str) (r c r' c' : nat) (row : str) (ch : ascii) :
  grid !! r = Some row -> (c < length row)%nat ->
  cell (<[r := <[c := ch]> row]> grid) r' c' =
    if decide (r' = r /\ c' = c) then Some ch else cell grid r' c'.
Proof.
  intros Hrow Hc. unfold cell.
  assert (Hr : (r < length grid)%nat) by by eapply lookup_lt_Some.
  destruct (decide (r' = r)) as [-> | Hne].
  - rewrite list_lookup_insert_eq by assumption. rewrite Hrow. cbn.
    destruct (decide (c' = c)) as [-> | Hnec].
    + rewrite list_lookup_insert_eq by assumption.
      by rewrite decide_True by done.
    + rewrite list_lookup_insert_ne by done.
      rewrite decide_False by (intros [_ ?]; done). reflexivity.
  - rewrite list_lookup_insert_ne by done.
    rewrite decide_False by (intros [? _]; done). reflexivity.
Qed.

Lemma grid_get_or_none_state (grid : list str) (rc : Z * Z) :
  grid_get_or_none rc grid = (eval (grid_get_or_none rc) grid, grid).
Proof. destruct rc. unfold eval. by rewrite grid_get_or_none_run. Qed.

(** On a rectangular grid and for coordinates without negative component,
    [grid_swap] returns without raising; it exchanges the two cells when
    both coordinates are valid and leaves the grid as it is otherwise. *)
Lemma grid_swap_nonneg (grid : list str) (x y : Z * Z) :
  rectangular grid -> 0 <= x.1 -> 0 <= x.2 -> 0 <= y.1 -> 0 <= y.2 ->
  eval (grid_swap x y) grid = Ret tt /\
  if decide (valid_coord grid x /\ valid_coord grid y)
  then
    length (exec (grid_swap x y) grid) = length grid /\
    forall r c,
      cell (exec (grid_swap x y) grid) r c =
        if decide (r = Z.to_nat y.1 /\ c = Z.to_nat y.2)
        then cell grid (Z.to_nat x.1) (Z.to_nat x.2)
        else if decide (r = Z.to_nat x.1 /\ c = Z.to_nat x.2)
        then cell grid (Z.to_nat y.1) (Z.to_nat y.2)
        else cell grid r c
  else exec (grid_swap x y) grid = grid.
Proof.
  destruct x as [r1 c1], y as [r2 c2]. cbn [fst snd].
  intros Hrect Hr1 Hc1 Hr2 Hc2.
  pose proof (grid_get_or_none_nonneg grid r1 c1 Hrect Hr1 Hc1) as Hx.
  pose proof (grid_get_or_none_nonneg grid r2 c2 Hrect Hr2 Hc2) as Hy.
  unfold eval at 1. unfold exec, grid_swap.
  unfold mbind, M_bind, m_bind. rewrite !grid_get_or_none_state.
  destruct (decide (valid_coord grid (r1, c1))) as [Hv1 | Hv1].
  2:{ rewrite Hx. rewrite decide_False by tauto.
      destruct (decide (valid_coord grid (r2, c2))) as [Hv2 | Hv2].
      - destruct Hy as (yv & _ & ->). done.
      - rewrite Hy. done. }
  destruct Hx as (xv & Hgx & Hx). rewrite Hx.
  destruct (decide (valid_coord grid (r2, c2))) as [Hv2 | Hv2].
  2:{ rewrite Hy. rewrite decide_False by tauto. done. }
  destruct Hy as (yv & Hgy & Hy). rewrite Hy. rewrite decide_True by tauto.
  destruct (grid_get_valid grid r1 c1 Hrect Hv1) as (row1 & ch1 & Hrow1 & Hch1 & Hg1).
  destruct (grid_get_valid grid r2 c2 Hrect Hv2) as (row2 & ch2 & Hrow2 & Hch2 & Hg2).
  assert (xv = [ch1]) as -> by congruence.
  assert (yv = [ch2]) as -> by congruence.
  destruct Hv1 as [Hvr1 Hvc1], Hv2 as [Hvr2 Hvc2]. cbn [fst snd] in *.
  pose proof (lookup_lt_Some _ _ _ Hch1) as Hlt1.
  pose proof (lookup_lt_Some _ _ _ Hch2) as Hlt2.
  unfold grid_set_rc. unfold mbind, M_bind, m_bind.
  rewrite (grid_set_run grid r1 c1 ch2 row1) by (unfold rowCount in *; lia || assumption).
  destruct (Z.ltb_spec c1 (len row1)); [| unfold len in *; lia].
  set (grid1 := <[Z.to_nat r1 := <[Z.to_nat c1 := ch2]> row1]> grid).
  assert (Hlen1 : length grid1 = length grid) by apply length_insert.
  assert (Hrow2' : exists row2', grid1 !! Z.to_nat r2 = Some row2' /\
                                 length row2' = length row2).
  { subst grid1. destruct (decide (Z.to_nat r2 = Z.to_nat r1)) as [Heq | Hne].
    - rewrite Heq in *. rewrite list_lookup_insert_eq by by eapply lookup_lt_Some.
      eexists. split; [reflexivity |]. rewrite length_insert. congruence.
    - rewrite list_lookup_insert_ne by done. by exists row2. }
  destruct Hrow2' as (row2' & Hrow2' & Hlen2).
  rewrite (grid_set_run grid1 r2 c2 ch1 row2')
    by (unfold rowCount, len in *; lia || assumption).
  destruct (Z.ltb_spec c2 (len row2')); [| unfold len in *; lia].
  cbn [fst snd]. split; [reflexivity |]. split.
  - rewrite length_insert. assumption.
  - intros r c. rewrite (cell_insert grid1) by (assumption || lia).
    destruct (decide (r = Z.to_nat r2 /\ c = Z.to_nat c2)) as [_ | _].
    + unfold cell. rewrite Hrow1. cbn. by rewrite Hch1.
    + subst grid1. rewrite (cell_insert grid) by assumption.
      destruct (decide (r = Z.to_nat r1 /\ c = Z.to_nat c1)) as [_ | _];
        [| reflexivity].
      unfold cell. rewrite Hrow2. cbn. by rewrite Hch2.
Qed.

(** C3, at a failing input: [(-1, -1)] is not a valid coordinate of the grid
    [["ab", "cd"]], and [grid_get] returns its last cell there instead of
    raising. *)
Theorem grid_get_negative_index :
  ~ valid_coord [py "ab"; py "cd"] (-1, -1) /\
  eval (grid_get (-1) (-1)) [py "ab"; py "cd"] = Ret (py "d").
Proof. split; [| reflexivity]. intros [[Hr _] _]. cbn in Hr. lia. Qed.

(** C1, at a failing input: [(-1, 0)] is not a valid coordinate of the grid
    [["ab", "cd"]], and [grid_get_or_none] returns a cell there instead of
    [None]. *)
Theorem grid_get_or_none_negative_index :
  ~ valid_coord [py "ab"; py "cd"] (-1, 0) /\
  eval (grid_get_or_none (-1, 0)) [py "ab"; py "cd"] = Ret (Some (py "c")).
Proof. split; [| reflexivity]. intros [[Hr _] _]. cbn in Hr. lia. Qed.

(** C2, at a failing input: [(-1, 0)] is not a valid coordinate of the grid
    [["ab", "cd"]], and [grid_swap] exchanges two cells all the same. *)
Theorem grid_swap_negative_index :
  ~ valid_coord [py "ab"; py "cd"] (-1, 0) /\
  grid_swap (-1, 0) (0, 0) [py "ab"; py "cd"] = (Ret tt, [py "cb"; py "ad"]).
Proof. split; [| reflexivity]. intros [[Hr _] _]. cbn in Hr. lia. Qed.

End grid_facts.

(** ** Permutations with repetition *)

Section permutation_facts.
Context {T : Type} `{Countable T}.
Implicit Types (h : gmap nat (list (val T))) (p s : list T) (rs : list (val T)).

Lemma appended_dom h h' result rs copies seqs l :
  appended h h' result rs copies seqs -> l ∈ dom h -> l ∈ dom h'.
Proof.
  intros (Hres & Hframe & _) Hl. apply elem_of_dom.
  destruct (decide (l = result)) as [-> | Hne]; [by rewrite Hres |].
  rewrite Hframe by assumption. by apply elem_of_dom.
Qed.

Lemma appended_nil h result rs :
  h !! result = Some rs -> appended h h result rs [] [].
Proof.
  intros Hres. repeat split.
  - by rewrite app_nil_r.
  - constructor.
  - intros l Hl. by apply elem_of_nil in Hl.
  - constructor.
Qed.

Lemma appended_trans h1 h2 h3 result rs copies1 seqs1 copies2 seqs2 :
  result ∈ dom h1 ->
  appended h1 h2 result rs copies1 seqs1 ->
  appended h2 h3 result (rs ++ (Ref <$> copies1)) copies2 seqs2 ->
  appended h1 h3 result rs (copies1 ++ copies2) (seqs1 ++ seqs2).
Proof.
  intros Hdom H12 H23.
  pose proof (appended_dom _ _ _ _ _ _ result H12 Hdom) as Hdom2.
  destruct H12 as (Hres1 & Hframe1 & Hnd1 & Hfresh1 & Hall1).
  destruct H23 as (Hres2 & Hframe2 & Hnd2 & Hfresh2 & Hall2).
  assert (Hin2 : forall l, l ∈ copies1 -> l ∈ dom h2).
  { intros l Hl. apply list_elem_of_lookup in Hl as [i Hi].
    destruct (Forall2_lookup_l _ _ _ _ _ Hall1 Hi) as (s & _ & Hs).
    apply elem_of_dom. by rewrite Hs. }
  assert (Hsub : forall l, l ∈ dom h1 -> l ∈ dom h2).
  { intros l Hl. apply elem_of_dom.
    destruct (decide (l = result)) as [-> | Hne]; [by rewrite Hres1 |].
    rewrite Hframe1 by assumption. by apply elem_of_dom. }
  repeat split.
  - by rewrite Hres2, fmap_app, app_assoc.
  - intros l Hl Hne. rewrite Hframe2 by auto. by apply Hframe1.
  - apply NoDup_app. repeat split; [assumption | | assumption].
    intros l Hl1 Hl2. by apply (Hfresh2 l Hl2), Hin2.
  - intros l Hl Hl1. apply elem_of_app in Hl as [Hl | Hl].
    + by apply (Hfresh1 l).
    + by apply (Hfresh2 l), Hsub.
  - apply Forall2_app; [| assumption].
    apply Forall2_same_length_lookup_2; [by eapply Forall2_length |].
    intros i l s Hl Hs.
    assert (Hlin : l ∈ copies1) by by eapply list_elem_of_lookup_2.
    rewrite Hframe2.
    + exact (Forall2_lookup_lr _ _ _ _ _ _ Hall1 Hl Hs).
    + by apply Hin2.
    + intros ->. by apply (Hfresh1 result).
Qed.

(** Heap operations, run. *)

Lemma list_len_run h l xs :
  h !! l = Some xs -> list_len l h = (Ret (len xs), h).
Proof. intros Hl. unfold list_len, load. m_unfold. by rewrite Hl. Qed.

Lemma list_append_run h l xs v :
  h !! l = Some xs -> list_append l v h = (Ret tt, <[l := xs ++ [v]]> h).
Proof. intros Hl. unfold list_append, load, store. m_unfold. by rewrite Hl. Qed.

Lemma list_copy_run h l xs :
  h !! l = Some xs ->
  list_copy l h = (Ret (fresh (dom h)), <[fresh (dom h) := xs]> h).
Proof. intros Hl. unfold list_copy, load, alloc. m_unfold. by rewrite Hl. Qed.

Lemma list_pop_run h l xs v :
  h !! l = Some (xs ++ [v]) -> list_pop l h = (Ret v, <[l := xs]> h).
Proof.
  intros Hl. unfold list_pop, load, store. m_unfold. rewrite Hl.
  rewrite last_snoc, length_app. cbn.
  replace (length xs + 1 - 1)%nat with (length xs) by lia.
  by rewrite take_app_length.
Qed.


(** Appending to the scratch list before a run and popping after it hides
    the change of the scratch list. *)
Lemma appended_push_pop h h' curr result rs copies seqs xs v :
  curr ≠ result -> h !! curr = Some xs ->
  appended (<[curr := xs ++ [v]]> h) h' result rs copies seqs ->
  appended h (<[curr := xs]> h') result rs copies seqs.
Proof.
  intros Hne Hcurr (Hres & Hframe & Hnd & Hfresh & Hall).
  assert (Hfresh' : forall l, l ∈ copies -> l ≠ curr).
  { intros l Hl ->. apply (Hfresh curr Hl). rewrite dom_insert_L. set_solver. }
  repeat split.
  - by rewrite lookup_insert_ne.
  - intros l Hl Hlr. destruct (decide (l = curr)) as [-> | Hlc].
    + by rewrite lookup_insert_eq.
    + rewrite lookup_insert_ne by done. rewrite Hframe.
      * by rewrite lookup_insert_ne.
      * rewrite dom_insert_L. set_solver.
      * assumption.
  - assumption.
  - intros l Hl Hdom. apply (Hfresh l Hl). rewrite dom_insert_L. set_solver.
  - apply Forall2_same_length_lookup_2; [by eapply Forall2_length |].
    intros i l s Hl Hs. rewrite lookup_insert_ne.
    + exact (Forall2_lookup_lr _ _ _ _ _ _ Hall Hl Hs).
    + intros <-. eapply Hfresh'; [by eapply list_elem_of_lookup_2 | done].
Qed.

Lemma permute_run (ops : gset T) (curr result : nat) (max_length : Z) :
  curr ≠ result ->
  forall (k depth : nat) p h rs,
    (k < depth)%nat ->
    h !! curr = Some (Elem <$> p) ->
    h !! result = Some rs ->
    Z.of_nat (length p + k) = max_length ->
    exists h' copies,
      permute depth curr max_length result ops h = (Ret tt, h') /\
      appended h h' result rs copies (app p <$> sequences (elements ops) k).
Proof.
  intros Hne. induction k as [| k IH]; intros depth p h rs Hd Hcurr Hres Hlen;
    (destruct depth as [| depth]; [lia |]); cbn [permute];
    rewrite (m_bind_ret _ _ _ _ _ (list_len_run h curr _ Hcurr));
    unfold len; rewrite length_fmap.
  - destruct (Z.eqb_spec (Z.of_nat (length p)) max_length); [| lia].
    rewrite (m_bind_ret _ _ _ _ _ (list_copy_run h curr _ Hcurr)).
    set (c := fresh (dom h)).
    assert (Hc : c ∉ dom h) by apply is_fresh.
    assert (Hcr : c ≠ result).
    { intros Heq. apply Hc. rewrite Heq. apply elem_of_dom. by rewrite Hres. }
    rewrite (list_append_run _ result rs) by by rewrite lookup_insert_ne.
    eexists _, [c]. split; [reflexivity |]. cbn. repeat split.
    + by rewrite lookup_insert_eq.
    + intros l Hl Hlr. rewrite lookup_insert_ne by done.
      rewrite lookup_insert_ne; [done |]. by intros <-.
    + apply NoDup_singleton.
    + intros l Hl. by apply list_elem_of_singleton in Hl as ->.
    + constructor; [| constructor].
      rewrite lookup_insert_ne by done. by rewrite lookup_insert_eq, app_nil_r.
  - destruct (Z.eqb_spec (Z.of_nat (length p)) max_length); [lia |].
    cbn [sequences]. generalize (elements ops) at 1 3. intros os.
    revert h rs Hcurr Hres. induction os as [| op os IHos]; intros h rs Hcurr Hres.
    + exists h, []. split; [reflexivity |]. by apply appended_nil.
    + cbn [for_each].
      assert (Hdom : result ∈ dom h) by (apply elem_of_dom; by rewrite Hres).
      assert (Hdomc : curr ∈ dom h) by (apply elem_of_dom; by rewrite Hcurr).
      set (h1 := <[curr := (Elem <$> p) ++ [Elem op]]> h).
      destruct (IH depth (p ++ [op]) h1 rs) as (h2 & copies & Hrun & Happ).
      * lia.
      * subst h1. by rewrite lookup_insert_eq, fmap_app.
      * subst h1. by rewrite lookup_insert_ne.
      * rewrite length_app. cbn. lia.
      * assert (Hcurr2 : h2 !! curr = Some ((Elem <$> p) ++ [Elem op])).
        { destruct Happ as (_ & Hframe & _). rewrite Hframe; subst h1.
          - by rewrite lookup_insert_eq.
          - rewrite dom_insert_L. set_solver.
          - assumption. }
        apply (appended_push_pop h h2 curr result rs copies _ _ _ Hne Hcurr) in Happ.
        set (h3 := <[curr := Elem <$> p]> h2) in *.
        destruct (IHos h3 (rs ++ (Ref <$> copies))) as (h4 & copies' & Hrun' & Happ').
        { subst h3. by rewrite lookup_insert_eq. }
        { by destruct Happ as (Hres3 & _). }
        exists h4, (copies ++ copies'). split.
        { unfold mbind at 1. unfold M_bind, m_bind.
          rewrite (m_bind_ret _ _ h h1 tt) by by apply list_append_run.
          rewrite (m_bind_ret _ _ h1 h2 tt) by exact Hrun.
          rewrite (m_bind_ret _ _ h2 h3 (Elem op)) by by apply list_pop_run.
          cbn. exact Hrun'. }
        rewrite bind_cons, fmap_app.
        eapply appended_trans; [assumption | | exact Happ'].
        rewrite <- list_fmap_compose.
        erewrite list_fmap_ext; [exact Happ |].
        intros i s _. cbn. by rewrite <- app_assoc.
Qed.

(** The enumeration: its size, its members, and that it has no repetition. *)

Lemma sequences_length (os : list T) (n : nat) :
  length (sequences os n) = (length os ^ n)%nat.
Proof.
  induction n as [| n IH]; [reflexivity |]. cbn [sequences Nat.pow].
  rewrite <- IH. generalize (sequences os n). clear IH. intros ss.
  induction os as [| op os IHos]; [reflexivity |].
  rewrite bind_cons, length_app, length_fmap, IHos. cbn. lia.
Qed.

Lemma sequences_elem_of (os : list T) (n : nat) s :
  s ∈ sequences os n <-> length s = n /\ forall x, x ∈ s -> x ∈ os.
Proof.
  revert s. induction n as [| n IH]; intros s; cbn [sequences].
  - rewrite list_elem_of_singleton. split.
    + intros ->. split; [reflexivity |]. intros x Hx. by apply elem_of_nil in Hx.
    + intros [Hlen _]. by apply nil_length_inv.
  - rewrite list_elem_of_bind. split.
    + intros (op & Hs & Hop). apply list_elem_of_fmap in Hs as (s' & -> & Hs').
      apply IH in Hs' as [Hlen Hall]. split; [cbn; lia |].
      intros x Hx. apply elem_of_cons in Hx as [-> | Hx]; auto.
    + intros [Hlen Hall]. destruct s as [| op s]; [discriminate |].
      exists op. split.
      * apply list_elem_of_fmap. exists s. split; [reflexivity |].
        apply IH. split; [cbn in Hlen; lia |].
        intros x Hx. apply Hall. by right.
      * apply Hall. by left.
Qed.

Lemma sequences_NoDup (os : list T) (n : nat) :
  NoDup os -> NoDup (sequences os n).
Proof.
  intros Hos. induction n as [| n IH]; cbn [sequences]; [apply NoDup_singleton |].
  apply NoDup_bind; [| | assumption].
  - intros op1 op2 s _ _ Hs1 Hs2.
    apply list_elem_of_fmap in Hs1 as (s1 & -> & _).
    apply list_elem_of_fmap in Hs2 as (s2 & [= -> _] & _). reflexivity.
  - intros op _. apply NoDup_fmap_2; [| assumption]. by intros s1 s2 [= ->].
Qed.

(** C6: from an empty scratch list [curr], with [max_length >= 0] and the
    recursion depth the length needs, [permute] returns and has appended
    to [result] references to [size ops ^ max_length] new, pairwise
    different lists, which hold every sequence of length [max_length] over
    [ops] once; [curr] is empty again and no other list has changed. *)
Theorem permute_enumerates (ops : gset T) (max_length : Z)
    (depth curr result : nat) h rs :
  (0 <= max_length)%Z ->
  (Z.to_nat max_length < depth)%nat ->
  curr ≠ result ->
  h !! curr = Some [] ->
  h !! result = Some rs ->
  exists h' copies seqs,
    permute depth curr max_length result ops h = (Ret tt, h') /\
    h' !! curr = Some [] /\
    h' !! result = Some (rs ++ (Ref <$> copies)) /\
    Forall2 (fun l s => h' !! l = Some (Elem <$> s)) copies seqs /\
    length seqs = (size ops ^ Z.to_nat max_length)%nat /\
    NoDup seqs /\
    (forall s, s ∈ seqs <->
       length s = Z.to_nat max_length /\ forall x, x ∈ s -> x ∈ ops) /\
    NoDup copies /\
    (forall l, l ∈ copies -> l ∉ dom h) /\
    (forall l, l ∈ dom h -> l ≠ result -> h' !! l = h !! l).
Proof.
  intros Hn Hdepth Hne Hcurr Hres.
  destruct (permute_run ops curr result max_length Hne
              (Z.to_nat max_length) depth [] h rs)
    as (h' & copies & Hrun & Happ & Hframe & Hnd & Hfresh & Hall);
    [assumption | assumption | assumption | cbn; lia |].
  exists h', copies, (sequences (elements ops) (Z.to_nat max_length)).
  rewrite list_fmap_id in Hall.
  split_and!; try assumption.
  - rewrite Hframe; [assumption | | assumption].
    apply elem_of_dom. by rewrite Hcurr.
  - apply sequences_length.
  - apply sequences_NoDup, NoDup_elements.
  - intros s. rewrite sequences_elem_of.
    by setoid_rewrite elem_of_elements.
Qed.

End permutation_facts.

Lemma permute_enumerates_witness :
  exists h' copies seqs,
    permute 4 0 3 1 ({[ 0%nat; 1%nat ]} : gset nat)
      ({[ 0%nat := []; 1%nat := [] ]} : gmap nat (list (val nat)))
      = (Ret tt, h') /\
    h' !! 0%nat = Some [] /\
    h' !! 1%nat = Some ([] ++ (Ref <$> copies)) /\
    Forall2 (fun l s => h' !! l = Some (Elem <$> s)) copies seqs /\
    length seqs = (size ({[ 0%nat; 1%nat ]} : gset nat) ^ Z.to_nat 3)%nat /\
    NoDup seqs /\
    (forall s, s ∈ seqs <->
       length s = Z.to_nat 3 /\
       forall x, x ∈ s -> x ∈ ({[ 0%nat; 1%nat ]} : gset nat)) /\
    NoDup copies /\
    (forall l, l ∈ copies ->
       l ∉ dom ({[ 0%nat := []; 1%nat := [] ]} : gmap nat (list (val nat)))) /\
    (forall l,
       l ∈ dom ({[ 0%nat := []; 1%nat := [] ]} : gmap nat (list (val nat))) ->
       l ≠ 1%nat ->
       h' !! l = ({[ 0%nat := []; 1%nat := [] ]} : gmap nat (list (val nat))) !! l).
Proof.
  apply (permute_enumerates ({[ 0%nat; 1%nat ]} : gset nat) 3 4 0 1
           ({[ 0%nat := []; 1%nat := [] ]} : gmap nat (list (val nat))) []).
  - lia.
  - simpl. lia.
  - lia.
  - reflexivity.
  - reflexivity.
Defined.

(** * Further properties *)

(** ** Math helpers *)

Section more_math_facts.
Local Open Scope Z_scope.

(** X1: for [n > 0], [cap] is the identity on [[1, n]], it is idempotent,
    it does not see multiples of [n] added to the value, and its result is
    congruent to the value modulo [n]. *)
Theorem cap_wraps (value n k : Z) :
  0 < n ->
  (1 <= value <= n -> cap value n = Ret value) /\
  (r ← cap value n; cap r n) = cap value n /\
  cap (value + k * n) n = cap value n /\
  (exists r, cap value n = Ret r /\ (r - value) mod n = 0).
Proof.
  intros Hn. rewrite !cap_eq by lia.
  pose proof (Z.mod_pos_bound value n Hn) as Hb.
  split; [| split; [| split]].
  - intros Hv. destruct (Z.eq_dec value n) as [-> | Hne].
    + by rewrite Z.mod_same, Z.eqb_refl by lia.
    + rewrite Z.mod_small by lia. destruct (Z.eqb_spec value 0); [lia | done].
  - cbn. rewrite cap_eq by lia. f_equal.
    destruct (Z.eqb_spec (value mod n) 0) as [H0 | H0].
    + by rewrite Z.mod_same, Z.eqb_refl by lia.
    + rewrite (Z.mod_small (value mod n)) by lia.
      destruct (Z.eqb_spec (value mod n) 0); [lia | done].
  - by rewrite Z.mod_add by lia.
  - eexists. split; [reflexivity |].
    destruct (Z.eqb_spec (value mod n) 0) as [H0 | H0].
    + rewrite Zminus_mod, Z.mod_same, H0 by lia. reflexivity.
    + rewrite Zminus_mod, Z.mod_mod, Z.sub_diag by lia. reflexivity.
Qed.

Lemma cap_wraps_witness :
  (1 <= 12 <= 5 -> cap 12 5 = Ret 12) /\
  (r ← cap 12 5; cap r 5) = cap 12 5 /\
  cap (12 + (-3) * 5) 5 = cap 12 5 /\
  (exists r, cap 12 5 = Ret r /\ (r - 12) mod 5 = 0).
Proof. apply (cap_wraps 12 5 (-3)). lia. Defined.

(** X2: [cap] raises [ZeroDivisionError] exactly for a zero [cap_value];
    for a negative [cap_value] the result lies in [[cap_value, -1]]. *)
Theorem cap_nonpositive (value n : Z) :
  (cap value n = Raise ZeroDivisionError <-> n = 0) /\
  (n < 0 -> exists r, cap value n = Ret r /\ n <= r <= -1).
Proof.
  split.
  - destruct (Z.eq_dec n 0) as [-> | Hn]; [done |].
    rewrite cap_eq by done. split; [discriminate | done].
  - intros Hn. rewrite cap_eq by lia. eexists. split; [reflexivity |].
    pose proof (Z.mod_neg_bound value n Hn).
    destruct (Z.eqb_spec (value mod n) 0); lia.
Qed.

Lemma cap_nonpositive_witness :
  (cap 7 (-3) = Raise ZeroDivisionError <-> -3 = 0) /\
  (-3 < 0 -> exists r, cap 7 (-3) = Ret r /\ -3 <= r <= -1).
Proof. apply (cap_nonpositive 7 (-3)). Defined.

(** X3: [gcd a b] divides [a] and [b], every common divisor divides it, and
    it is zero only when both are. *)
Theorem gcd_is_greatest (a b : Z) :
  (gcd a b | a) /\ (gcd a b | b) /\
  (forall d, (d | a) -> (d | b) -> (d | gcd a b)) /\
  (gcd a b = 0 <-> a = 0 /\ b = 0).
Proof.
  rewrite gcd_is_Zgcd. split_and!.
  - apply Z.gcd_divide_l.
  - apply Z.gcd_divide_r.
  - intros d. apply Z.gcd_greatest.
  - split.
    + intros H0. split; [by eapply Z.gcd_eq_0_l | by eapply Z.gcd_eq_0_r].
    + by intros [-> ->].
Qed.

Lemma gcd_is_greatest_witness :
  (gcd 12 (-18) | 12) /\ (gcd 12 (-18) | -18) /\
  (forall d, (d | 12) -> (d | -18) -> (d | gcd 12 (-18))) /\
  (gcd 12 (-18) = 0 <-> 12 = 0 /\ -18 = 0).
Proof. apply (gcd_is_greatest 12 (-18)). Defined.

(** X4: [lcm] raises [ZeroDivisionError] exactly when both arguments are
    zero; otherwise it returns a non-negative common multiple that divides
    every common multiple, and zero when one argument is zero. *)
Theorem lcm_is_least (a b : Z) :
  (lcm a b = Raise ZeroDivisionError <-> a = 0 /\ b = 0) /\
  (~ (a = 0 /\ b = 0) ->
   exists l, lcm a b = Ret l /\ 0 <= l /\ (a | l) /\ (b | l) /\
     (forall m, (a | m) -> (b | m) -> (l | m)) /\
     (l = 0 <-> a = 0 \/ b = 0)).
Proof.
  unfold lcm, py_floordiv. rewrite gcd_is_Zgcd.
  destruct (Z.eqb_spec (Z.gcd a b) 0) as [H0 | H0].
  - split; [| intros Hn; exfalso; apply Hn].
    + split; [intros _ |done].
      split; [by eapply Z.gcd_eq_0_l | by eapply Z.gcd_eq_0_r].
    + split; [by eapply Z.gcd_eq_0_l | by eapply Z.gcd_eq_0_r].
  - split.
    + split; [discriminate |]. intros [-> ->]. by destruct H0.
    + intros _. exists (Z.lcm a b).
      assert (Heq : Z.abs (a * b) / Z.gcd a b = Z.lcm a b).
      { unfold Z.lcm. destruct (Z.gcd_divide_r a b) as [q Hq].
        pose proof (Z.gcd_nonneg a b) as Hg.
        rewrite Hq at 1 3. rewrite Z.div_mul by done.
        rewrite Z.mul_assoc, Z.abs_mul, (Z.abs_eq (Z.gcd a b)) by done.
        by apply Z.div_mul. }
      rewrite Heq. split_and!.
      * reflexivity.
      * apply Z.lcm_nonneg.
      * apply Z.divide_lcm_l.
      * apply Z.divide_lcm_r.
      * intros m. apply Z.lcm_least.
      * apply Z.lcm_eq_0.
Qed.

Lemma lcm_is_least_witness :
  (lcm 4 (-6) = Raise ZeroDivisionError <-> 4 = 0 /\ -6 = 0) /\
  (~ (4 = 0 /\ -6 = 0) ->
   exists l, lcm 4 (-6) = Ret l /\ 0 <= l /\ (4 | l) /\ (-6 | l) /\
     (forall m, (4 | m) -> (-6 | m) -> (l | m)) /\
     (l = 0 <-> 4 = 0 \/ -6 = 0)).
Proof. apply (lcm_is_least 4 (-6)). Defined.

End more_math_facts.

(** ** Intervals *)

Section interval_facts.
Local Open Scope Z_scope.

(** X6: [int_range_intersects] answers whether the two half-open intervals
    share an integer; it is symmetric, true of a non-empty range with
    itself, and false as soon as one range is empty. *)
Theorem int_range_intersects_shared (a b : py_range) :
  (int_range_intersects a b = true <->
     exists x, in_interval a x /\ in_interval b x) /\
  int_range_intersects a b = int_range_intersects b a /\
  (int_range_intersects a a = true <-> start a < stop a) /\
  (stop a <= start a -> int_range_intersects a b = false).
Proof.
  unfold int_range_intersects, in_interval.
  destruct a as [sa ea ta], b as [sb eb tb]. cbn.
  destruct (Z.geb_spec sa ea), (Z.geb_spec sb eb),
    (Z.leb_spec sa (eb - 1)), (Z.geb_spec (ea - 1) sb),
    (Z.leb_spec sb (ea - 1)), (Z.geb_spec (eb - 1) sa),
    (Z.leb_spec sa (ea - 1)), (Z.geb_spec (ea - 1) sa); cbn;
    (split_and!; try done; try lia;
     try (split; [discriminate | intros [x Hx]; lia]);
     try (split; [discriminate | lia]);
     try (split; [intros _ | done]; first [lia | exists (Z.max sa sb); lia])).
Qed.

Lemma int_range_intersects_shared_witness :
  (int_range_intersects {| start := 0; stop := 5; step := 1 |}
     {| start := 5; stop := 9; step := 1 |} = true <->
     exists x, in_interval {| start := 0; stop := 5; step := 1 |} x /\
               in_interval {| start := 5; stop := 9; step := 1 |} x) /\
  int_range_intersects {| start := 0; stop := 5; step := 1 |}
     {| start := 5; stop := 9; step := 1 |}
  = int_range_intersects {| start := 5; stop := 9; step := 1 |}
     {| start := 0; stop := 5; step := 1 |} /\
  (int_range_intersects {| start := 0; stop := 5; step := 1 |}
     {| start := 0; stop := 5; step := 1 |} = true <-> 0 < 5) /\
  (5 <= 0 ->
   int_range_intersects {| start := 0; stop := 5; step := 1 |}
     {| start := 5; stop := 9; step := 1 |} = false).
Proof.
  apply (int_range_intersects_shared {| start := 0; stop := 5; step := 1 |}
           {| start := 5; stop := 9; step := 1 |}).
Defined.

End interval_facts.

(** ** Directions and coordinates *)

Section coordinate_facts.
Local Open Scope Z_scope.

(** X7: [counter_clockwise] is three clockwise quarter turns, [clockwise]
    is [rotate], a quarter turn never keeps the direction, and two turns
    either way give the same, opposite direction. *)
Theorem quarter_turns (d : Dir) :
  (d1 ← rotate d; d2 ← rotate d1; rotate d2) = counter_clockwise d /\
  clockwise d = rotate d /\
  rotate d ≠ Ret d /\ counter_clockwise d ≠ Ret d /\
  (d1 ← rotate d; rotate d1) = (d1 ← counter_clockwise d; counter_clockwise d1) /\
  (d1 ← rotate d; rotate d1) ≠ Ret d.
Proof. destruct d; split_and!; done. Qed.

(** X8: [next_pos] never raises and moves to a cell at distance 1; the step
    in the opposite direction (two quarter turns) leads back, and so does
    walking four steps with a quarter turn after each. *)
Theorem next_pos_step (rc : Z * Z) (d : Dir) :
  exists rc',
    next_pos rc d = Ret rc' /\
    get_distance rc rc' = 1 /\
    (d1 ← rotate d; d2 ← rotate d1; next_pos rc' d2) = Ret rc /\
    (d1 ← rotate d; p1 ← next_pos rc' d1;
     d2 ← rotate d1; p2 ← next_pos p1 d2;
     d3 ← rotate d2; next_pos p2 d3) = Ret rc.
Proof.
  destruct rc as [r c].
  destruct d; eexists; (split; [reflexivity |]);
    unfold get_distance, mbind, outcome_bind, rotate, next_pos; cbn;
    (split_and!; [lia | f_equal; f_equal; lia | f_equal; f_equal; lia]).
Qed.

(** X9: [get_distance] is a metric: it is non-negative, zero exactly
    between equal cells, symmetric, and obeys the triangle inequality. *)
Theorem get_distance_metric (a b c : Z * Z) :
  0 <= get_distance a b /\
  (get_distance a b = 0 <-> a = b) /\
  get_distance a b = get_distance b a /\
  get_distance a c <= get_distance a b + get_distance b c.
Proof.
  destruct a as [a1 a2], b as [b1 b2], c as [c1 c2]. unfold get_distance. cbn.
  split_and!; try lia.
  split; [intros Hd; f_equal; lia | intros [= -> ->]; lia].
Qed.

End coordinate_facts.

(** ** Hexadecimal to binary and back *)

Section binary_facts.
Local Open Scope Z_scope.

Lemma bits_value_snoc (acc : Z) (s : str) (c : ascii) :
  bits_value acc (s ++ [c]) = bits_value acc s * 2 + digit_value c.
Proof. unfold bits_value. by rewrite fold_left_app. Qed.

Lemma bits_value_zeros (k : nat) (s : str) :
  bits_value 0 (replicate k "0"%char ++ s) = bits_value 0 s.
Proof. induction k as [| k IH]; [reflexivity |]. exact IH. Qed.

Lemma bin_digits_value (p : positive) : bits_value 0 (bin_digits p) = Z.pos p.
Proof.
  induction p as [p IH | p IH |]; cbn [bin_digits]; [| | reflexivity];
    rewrite bits_value_snoc, IH.
  - change (digit_value "1"%char) with 1. by rewrite Pos2Z.inj_xI, Z.mul_comm.
  - change (digit_value "0"%char) with 0. by rewrite Pos2Z.inj_xO, Z.mul_comm, Z.add_0_r.
Qed.

Lemma bin_digits_bits (p : positive) : Forall is_bit (bin_digits p).
Proof.
  induction p as [p IH | p IH |]; cbn [bin_digits].
  - apply Forall_app. split; [done |]. constructor; [by right | done].
  - apply Forall_app. split; [done |]. constructor; [by left | done].
  - constructor; [by right | done].
Qed.

Lemma scan_bits (s : str) (prev : ascii) (acc : Z) (d : nat) :
  Forall is_bit s -> (s = [] -> prev ≠ "_"%char) ->
  scan_digits 2 prev acc d s = Ret (bits_value acc s, (d + length s)%nat, []).
Proof.
  intros Hs. revert prev acc d. induction Hs as [| c s Hc Hs IH]; intros prev acc d Hp.
  - cbn. destruct (Ascii.eqb_spec prev "_"); [by destruct Hp |].
    by rewrite Nat.add_0_r.
  - cbn [scan_digits].
    assert (Hc' : Ascii.eqb c "_" = false /\ (digit_value c <? 2) = true)
      by (destruct Hc as [-> | ->]; done).
    destruct Hc' as [-> ->]. rewrite IH.
    + cbn. do 3 f_equal. lia.
    + intros _. destruct Hc as [-> | ->]; done.
Qed.

Lemma py_int_bits (s : str) :
  Forall is_bit s -> s ≠ [] -> py_int s 2 = Ret (bits_value 0 s).
Proof.
  intros Hs Hne. unfold py_int, to_ascii.
  assert (Hascii : forallb (fun c => code c <? 128) s = true).
  { clear Hne. induction Hs as [| c s [-> | ->] _ IH]; [done | exact IH..]. }
  rewrite Hascii. unfold PyLong_FromString.
  destruct Hs as [| c s Hc Hs]; [done |].
  assert (Hskip : skip_prefix 2 (c :: s) = c :: s).
  { destruct Hs as [| x s' [-> | ->] _]; destruct Hc as [-> | ->]; reflexivity. }
  assert (Hhead : skip_sign (skip_space (c :: s)) = (1, c :: s))
    by (destruct Hc as [-> | ->]; reflexivity).
  rewrite Hhead, Hskip.
  assert (Hscan := scan_bits (c :: s) "000"%char 0 0
                     (Forall_cons_2 _ _ _ Hc Hs) ltac:(done)).
  destruct Hc as [-> | ->]; rewrite Hscan; unfold mbind, outcome_bind;
    cbn [length Nat.add Nat.eqb]; change (is_binary_base 2) with true;
    cbn [negb andb skip_space]; by rewrite Z.mul_1_l.
Qed.

Lemma zfill_bits (s : str) :
  Forall is_bit s -> zfill s 4 = replicate (4 - length s) "0"%char ++ s.
Proof.
  intros Hs. unfold zfill. destruct (Nat.leb_spec 4 (length s)) as [Hle | Hlt].
  - by replace (4 - length s)%nat with 0%nat by lia.
  - destruct Hs as [| c s [-> | ->] _]; [by rewrite app_nil_r | done..].
Qed.

(** X5: when [int(ch, 16)] accepts [ch] with a value [n >= 0],
    [hex_to_binary] returns at least four binary digits that
    [int(_, 2)] reads back as [n]. *)
Theorem hex_to_binary_roundtrip (ch : str) (n : Z) :
  py_int ch 16 = Ret n -> 0 <= n ->
  exists b,
    hex_to_binary ch = Ret b /\
    py_int b 2 = Ret n /\
    Forall is_bit b /\
    (4 <= length b)%nat.
Proof.
  intros Hint Hn. unfold hex_to_binary. rewrite Hint. cbn.
  eexists. split; [reflexivity |].
  assert (Hd : exists s, slice_from (bin n) 2 = s /\ Forall is_bit s /\
                         s ≠ [] /\ bits_value 0 s = n).
  { destruct n as [| p | p]; [| | lia].
    - exists ["0"%char]. split_and!; try done; repeat constructor; by left.
    - exists (bin_digits p). split_and!; [done | apply bin_digits_bits | |
        apply bin_digits_value].
      destruct p; cbn [bin_digits]; try done; by intros [_ ?]%app_eq_nil. }
  destruct Hd as (s & -> & Hbits & Hne & Hval).
  rewrite zfill_bits by done.
  assert (Hall : Forall is_bit (replicate (4 - length s) "0"%char ++ s)).
  { apply Forall_app. split; [| done]. apply Forall_replicate. by left. }
  split_and!.
  - rewrite py_int_bits; [by rewrite bits_value_zeros, Hval | done |].
    destruct s; [done | by destruct (4 - _)%nat].
  - done.
  - rewrite length_app, length_replicate. lia.
Qed.

Lemma hex_to_binary_roundtrip_witness :
  exists b,
    hex_to_binary (py "1f") = Ret b /\
    py_int b 2 = Ret 31 /\
    Forall is_bit b /\
    (4 <= length b)%nat.
Proof. apply (hex_to_binary_roundtrip (py "1f") 31); [reflexivity | lia]. Defined.

End binary_facts.

(** ** Grids, at every coordinate Python accepts *)

Section grid_position_facts.
Local Open Scope Z_scope.

Lemma norm_index_at (n : nat) (i : Z) :
  norm_index (Z.of_nat n) i =
    match index_at n i with Some k => Ret k | None => Raise IndexError end.
Proof.
  unfold norm_index, index_at.
  destruct (Z.ltb_spec i 0); repeat case_decide;
    repeat match goal with
    | |- context [(?a <=? ?b)] => destruct (Z.leb_spec a b)
    | |- context [(?a <? ?b)] => destruct (Z.ltb_spec a b)
    end; cbn; try reflexivity; lia.
Qed.

Lemma index_at_lt (n : nat) (i : Z) (k : nat) :
  index_at n i = Some k -> (k < n)%nat.
Proof. unfold index_at. repeat case_decide; intros [= <-]; lia. Qed.

Lemma getitem_at {A} (xs : list A) (i : Z) :
  getitem xs i =
    match index_at (length xs) i ≫= (xs !!.) with
    | Some x => Ret x
    | None => Raise IndexError
    end.
Proof.
  unfold getitem, len. rewrite norm_index_at.
  destruct (index_at (length xs) i) as [k |]; cbn; [| done].
  by destruct (xs !! k).
Qed.

Lemma position_Some (grid : list str) (rc : Z * Z) (i j : nat) :
  position grid rc = Some (i, j) <->
  exists row, index_at (length grid) rc.1 = Some i /\ grid !! i = Some row /\
              index_at (length row) rc.2 = Some j.
Proof.
  unfold position. split.
  - destruct (index_at (length grid) rc.1) as [i' |]; cbn; [| done].
    destruct (grid !! i') as [row |] eqn:Hrow; cbn; [| done].
    destruct (index_at (length row) rc.2) as [j' |] eqn:Hj; cbn; [| done].
    intros [= <- <-]. by exists row.
  - intros (row & -> & Hrow & Hj). cbn. rewrite Hrow. cbn. by rewrite Hj.
Qed.

Lemma position_None (grid : list str) (rc : Z * Z) :
  position grid rc = None <->
  forall i row, index_at (length grid) rc.1 = Some i -> grid !! i = Some row ->
                index_at (length row) rc.2 = None.
Proof.
  unfold position. split.
  - intros Hp i row Hi Hrow. rewrite Hi in Hp. cbn in Hp. rewrite Hrow in Hp.
    cbn in Hp. by destruct (index_at (length row) rc.2).
  - intros Hn. destruct (index_at (length grid) rc.1) as [i |]; cbn; [| done].
    destruct (grid !! i) as [row |] eqn:Hrow; cbn; [| done].
    by rewrite (Hn i row).
Qed.

Lemma position_cell (grid : list str) (rc : Z * Z) (i j : nat) :
  position grid rc = Some (i, j) ->
  exists row ch, grid !! i = Some row /\ row !! j = Some ch /\
                 cell grid i j = Some ch.
Proof.
  intros (row & _ & Hrow & Hj)%position_Some.
  apply index_at_lt in Hj.
  destruct (lookup_lt_is_Some_2 row j Hj) as [ch Hch].
  exists row, ch. split_and!; [done.. |]. unfold cell. rewrite Hrow. cbn. done.
Qed.

Lemma grid_item_position (grid : list str) (r c : Z) :
  grid_item r c grid =
    (match position grid (r, c) with
     | Some (i, j) =>
         match cell grid i j with
         | Some ch => Ret [ch]
         | None => Raise IndexError
         end
     | None => Raise IndexError
     end, grid).
Proof.
  rewrite grid_item_run. f_equal. unfold position, cell, str_getitem. cbn [fst snd].
  rewrite getitem_at.
  destruct (index_at (length grid) r) as [i |]; cbn; [| done].
  destruct (grid !! i) as [row |] eqn:Hrow; cbn; [| done].
  rewrite getitem_at.
  destruct (index_at (length row) c) as [j |]; cbn; [| done].
  rewrite Hrow. cbn. by destruct (row !! j).
Qed.

Lemma grid_get_or_none_position (grid : list str) (rc : Z * Z) :
  grid_get_or_none rc grid =
    (Ret (match position grid rc with
          | Some (i, j) => (fun ch => [ch]) <$> cell grid i j
          | None => None
          end), grid).
Proof.
  destruct rc as [r c]. rewrite grid_get_or_none_run. f_equal.
  unfold eval, grid_get. rewrite grid_item_position. cbn [fst].
  destruct (position grid (r, c)) as [[i j] |]; [| done].
  by destruct (cell grid i j).
Qed.

Lemma join_insert (row : str) (j : nat) (v : str) :
  (j < length row)%nat ->
  join (<[j := v]> (list_of_str row)) = take j row ++ v ++ drop (S j) row.
Proof.
  revert j. induction row as [| a row IH]; intros j Hj; [cbn in Hj; lia |].
  destruct j as [| j]; cbn.
  - f_equal. clear. induction row as [| b row IH]; [reflexivity |].
    cbn. by rewrite IH.
  - f_equal. apply IH. cbn in Hj. lia.
Qed.

Lemma grid_set_position (grid : list str) (r c : Z) (v : str) :
  grid_set r c v grid =
    match position grid (r, c) with
    | Some (i, j) =>
        (Ret tt,
         match grid !! i with
         | Some row => <[i := take j row ++ v ++ drop (S j) row]> grid
         | None => grid
         end)
    | None => (Raise IndexError, grid)
    end.
Proof.
  unfold grid_set, setitem, position. cbn [fst snd]. m_unfold.
  rewrite getitem_at. unfold len. rewrite !norm_index_at.
  destruct (index_at (length grid) r) as [i |] eqn:Hi; cbn; [| done].
  destruct (grid !! i) as [row |] eqn:Hrow; cbn; [| done].
  rewrite norm_index_at, length_list_of_str.
  destruct (index_at (length row) c) as [j |] eqn:Hj; cbn; [| done].
  rewrite Hrow. by rewrite join_insert by by eapply index_at_lt.
Qed.

(** X10: [grid_get_or_none] never raises; at every coordinate it returns
    [Some v] exactly when [grid_get] returns [v], and [None] exactly when
    [grid_get] raises, which it does with [IndexError] only.  What
    [grid_get] returns is a string of one character. *)
Theorem grid_get_or_none_agrees (grid : list str) (r c : Z) :
  (forall v, eval (grid_get_or_none (r, c)) grid = Ret (Some v) <->
             eval (grid_get r c) grid = Ret v) /\
  (eval (grid_get_or_none (r, c)) grid = Ret None <->
   eval (grid_get r c) grid = Raise IndexError) /\
  (forall e, eval (grid_get_or_none (r, c)) grid ≠ Raise e) /\
  (forall v, eval (grid_get r c) grid = Ret v -> length v = 1%nat) /\
  (forall e, eval (grid_get r c) grid = Raise e -> e = IndexError).
Proof.
  pose proof (grid_get_raises grid r c) as Hraise.
  unfold eval at 1 3 5. rewrite grid_get_or_none_run. cbn [fst].
  assert (Hlen : forall v, eval (grid_get r c) grid = Ret v -> length v = 1%nat).
  { unfold eval, grid_get. rewrite grid_item_position. cbn [fst].
    destruct (position grid (r, c)) as [[i j] |]; [| done].
    destruct (cell grid i j); [| done]. by intros v [= <-]. }
  destruct (eval (grid_get r c) grid) as [v | e] eqn:Hget.
  - split_and!.
    + intros v'. split; by intros [= ->].
    + split; intros [=].
    + intros e [=].
    + exact Hlen.
    + intros e [=].
  - rewrite (Hraise e eq_refl). split_and!.
    + intros v'. split; intros [=].
    + done.
    + intros e' [=].
    + intros v' [=].
    + by intros e' [= <-].
Qed.



(** X12: [grid_set] either raises [IndexError] and leaves the grid
    untouched, exactly where [grid_get] raises, or returns after replacing
    in one row the one character of the cell by the string [v]; the row
    grows by [len(v) - 1] characters. *)
Theorem grid_set_outcome (grid : list str) (r c : Z) (v : str) :
  match position grid (r, c) with
  | None =>
      eval (grid_get r c) grid = Raise IndexError /\
      grid_set r c v grid = (Raise IndexError, grid)
  | Some (i, j) =>
      exists row ch,
        grid !! i = Some row /\ row !! j = Some ch /\
        eval (grid_get r c) grid = Ret [ch] /\
        grid_set r c v grid =
          (Ret tt, <[i := take j row ++ v ++ drop (S j) row]> grid) /\
        (length (take j row ++ v ++ drop (S j) row) + 1
         = length row + length v)%nat
  end.
Proof.
  rewrite grid_set_position. unfold eval, grid_get. rewrite grid_item_position.
  cbn [fst]. destruct (position grid (r, c)) as [[i j] |] eqn:Hpos; [| done].
  destruct (position_cell grid (r, c) i j Hpos) as (row & ch & Hrow & Hch & Hcell).
  exists row, ch. rewrite Hcell, Hrow. split_and!; try done.
  apply lookup_lt_Some in Hch.
  rewrite !length_app, length_take, length_drop. lia.
Qed.

(** *** Exchanging two cells *)

Lemma grid_set_single (grid : list str) (r c : Z) (ch : ascii) :
  grid_set r c [ch] grid =
    match position grid (r, c) with
    | Some (i, j) => (Ret tt, set_cell grid i j ch)
    | None => (Raise IndexError, grid)
    end.
Proof.
  rewrite grid_set_position.
  destruct (position grid (r, c)) as [[i j] |] eqn:Hpos; [| done].
  destruct (position_cell grid (r, c) i j Hpos) as (row & ch' & Hrow & Hch & _).
  unfold set_cell. rewrite Hrow. do 2 f_equal. symmetry.
  apply insert_take_drop. by eapply lookup_lt_Some.
Qed.

Lemma shape_set_cell (grid : list str) (i j : nat) (ch : ascii) :
  shape (set_cell grid i j ch) = shape grid.
Proof.
  unfold set_cell, shape. destruct (grid !! i) as [row |] eqn:Hrow; [| done].
  rewrite list_fmap_insert, length_insert. apply list_insert_id.
  by rewrite list_lookup_fmap, Hrow.
Qed.

Lemma position_via_shape (grid : list str) (rc : Z * Z) :
  position grid rc =
    (i ← index_at (length (shape grid)) rc.1;
     n ← shape grid !! i;
     j ← index_at n rc.2;
     Some (i, j)).
Proof.
  unfold position, shape. rewrite length_fmap.
  destruct (index_at (length grid) rc.1) as [i |]; cbn; [| done].
  rewrite list_lookup_fmap. by destruct (grid !! i).
Qed.

Lemma position_shape (g1 g2 : list str) (rc : Z * Z) :
  shape g1 = shape g2 -> position g1 rc = position g2 rc.
Proof. intros Hs. by rewrite !position_via_shape, Hs. Qed.

Lemma cell_set_cell (grid : list str) (i j i' j' : nat) (ch : ascii) :
  is_Some (cell grid i j) ->
  cell (set_cell grid i j ch) i' j' =
    if decide (i' = i /\ j' = j) then Some ch else cell grid i' j'.
Proof.
  intros [a Ha]. unfold cell in Ha. unfold set_cell.
  destruct (grid !! i) as [row |] eqn:Hrow; [| done]. cbn in Ha.
  apply cell_insert; [done | by eapply lookup_lt_Some].
Qed.

Lemma grid_ext (g1 g2 : list str) :
  shape g1 = shape g2 -> (forall i j, cell g1 i j = cell g2 i j) -> g1 = g2.
Proof.
  intros Hs Hc. apply list_eq. intros i.
  assert (Hi : length <$> g1 !! i = length <$> g2 !! i).
  { unfold shape in Hs. by rewrite <- !list_lookup_fmap, Hs. }
  specialize (Hc i). unfold cell in Hc.
  destruct (g1 !! i) as [row1 |], (g2 !! i) as [row2 |]; try done.
  cbn in *. f_equal. apply list_eq. intros j. apply Hc.
Qed.

Lemma swapped_cells (grid : list str) (x y : Z * Z) (i1 j1 i2 j2 : nat)
    (a b : ascii) :
  position grid x = Some (i1, j1) -> position grid y = Some (i2, j2) ->
  cell grid i1 j1 = Some a -> cell grid i2 j2 = Some b ->
  shape (swapped grid x y) = shape grid /\
  forall i j,
    cell (swapped grid x y) i j =
      if decide (i = i2 /\ j = j2) then Some a
      else if decide (i = i1 /\ j = j1) then Some b
      else cell grid i j.
Proof.
  intros Hx Hy Ha Hb. unfold swapped. rewrite Hx, Hy, Ha, Hb. split.
  - by rewrite !shape_set_cell.
  - intros i j. rewrite cell_set_cell.
    + case_decide; [done |]. rewrite cell_set_cell by by rewrite Ha. done.
    + rewrite cell_set_cell by by rewrite Ha. case_decide; by eauto.
Qed.

Lemma grid_swap_run (grid : list str) (x y : Z * Z) :
  grid_swap x y grid = (Ret tt, swapped grid x y).
Proof.
  unfold grid_swap, swapped. unfold mbind, M_bind, m_bind.
  rewrite !grid_get_or_none_position.
  destruct (position grid x) as [[i1 j1] |] eqn:Hx.
  2:{ by destruct (position grid y) as [[i2 j2] |];
        [destruct (cell grid i2 j2) |]. }
  destruct (position_cell grid x i1 j1 Hx) as (row1 & a & _ & _ & Ha).
  rewrite Ha. cbn [fmap option_fmap option_map].
  destruct (position grid y) as [[i2 j2] |] eqn:Hy; [| done].
  destruct (position_cell grid y i2 j2 Hy) as (row2 & b & _ & _ & Hb).
  rewrite Hb. cbn [fmap option_fmap option_map].
  destruct x as [r1 c1], y as [r2 c2]. unfold grid_set_rc.
  rewrite grid_set_single, Hx, grid_set_single.
  by rewrite (position_shape _ grid) by apply shape_set_cell; rewrite Hy.
Qed.

Lemma colCount_shape (grid : list str) :
  colCount grid = Z.of_nat (default 0%nat (head (shape grid))).
Proof. by destruct grid. Qed.

Lemma rectangular_shape (g1 g2 : list str) :
  shape g1 = shape g2 -> rectangular g1 -> rectangular g2.
Proof.
  intros Hs Hrect. unfold rectangular in *.
  rewrite (colCount_shape g2), <- Hs, <- colCount_shape.
  apply Forall_lookup. intros i row2 Hrow2.
  assert (Hi : shape g1 !! i = Some (length row2)).
  { rewrite Hs. unfold shape. by rewrite list_lookup_fmap, Hrow2. }
  unfold shape in Hi. rewrite list_lookup_fmap in Hi.
  destruct (g1 !! i) as [row1 |] eqn:Hrow1; [| done].
  injection Hi as Hi. unfold len. rewrite <- Hi.
  exact (proj1 (Forall_lookup _ _) Hrect i row1 Hrow1).
Qed.

(** X13: [grid_swap] never raises and keeps the length of every row.  When
    both coordinates denote a cell, each of them reads afterwards what the
    other read before; when [grid_get_or_none] gives [None] for one of
    them, the grid is left as it is. *)
Theorem grid_swap_exchanges (grid : list str) (x y : Z * Z) :
  eval (grid_swap x y) grid = Ret tt /\
  shape (exec (grid_swap x y) grid) = shape grid /\
  (rectangular grid -> rectangular (exec (grid_swap x y) grid)) /\
  (forall xv yv,
     eval (grid_get_or_none x) grid = Ret (Some xv) ->
     eval (grid_get_or_none y) grid = Ret (Some yv) ->
     eval (grid_get_or_none x) (exec (grid_swap x y) grid) = Ret (Some yv) /\
     eval (grid_get_or_none y) (exec (grid_swap x y) grid) = Ret (Some xv)) /\
  (eval (grid_get_or_none x) grid = Ret None \/
   eval (grid_get_or_none y) grid = Ret None ->
   exec (grid_swap x y) grid = grid).
Proof.
  unfold eval, exec. rewrite grid_swap_run, !grid_get_or_none_position.
  cbn [fst snd].
  assert (Hshape : shape (swapped grid x y) = shape grid).
  { unfold swapped.
    destruct (position grid x) as [[i1 j1] |], (position grid y) as [[i2 j2] |];
      try done.
    destruct (cell grid i1 j1), (cell grid i2 j2); try done.
    by rewrite !shape_set_cell. }
  split_and!; [done | done | by apply rectangular_shape | |].
  - intros xv yv Hxv Hyv.
    rewrite (position_shape _ grid x), (position_shape _ grid y) by done.
    destruct (position grid x) as [[i1 j1] |] eqn:Hx; [| done].
    destruct (position grid y) as [[i2 j2] |] eqn:Hy; [| done].
    destruct (cell grid i1 j1) as [a |] eqn:Ha; [| done].
    destruct (cell grid i2 j2) as [b |] eqn:Hb; [| done].
    destruct (swapped_cells grid x y i1 j1 i2 j2 a b Hx Hy Ha Hb) as [_ Hcells].
    rewrite !Hcells. injection Hxv as <-. injection Hyv as <-.
    rewrite (decide_True (P := i2 = i2 /\ j2 = j2)) by done.
    rewrite (decide_True (P := i1 = i1 /\ j1 = j1)) by done.
    split; [| done]. case_decide as Heq; [| done].
    destruct Heq as [-> ->]. cbn. congruence.
  - unfold swapped. intros [Hn | Hn].
    + destruct (position grid x) as [[i1 j1] |] eqn:Hx; [| done].
      destruct (position_cell grid x i1 j1 Hx) as (? & a & _ & _ & Ha).
      by rewrite Ha in Hn.
    + destruct (position grid y) as [[i2 j2] |] eqn:Hy;
        [| by destruct (position grid x) as [[] |]].
      destruct (position_cell grid y i2 j2 Hy) as (? & b & _ & _ & Hb).
      by rewrite Hb in Hn.
Qed.

(** X14: exchanging the same two cells twice gives the grid back, and the
    order of the two coordinates does not matter, at all coordinates and on
    every grid. *)
Theorem grid_swap_twice (grid : list str) (x y : Z * Z) :
  exec (grid_swap x y) (exec (grid_swap x y) grid) = grid /\
  exec (grid_swap y x) grid = exec (grid_swap x y) grid.
Proof.
  unfold exec. rewrite !grid_swap_run. cbn [snd].
  destruct (position grid x) as [[i1 j1] |] eqn:Hx.
  2:{ unfold swapped. rewrite Hx. cbn. rewrite Hx.
      by destruct (position grid y) as [[] |]. }
  destruct (position grid y) as [[i2 j2] |] eqn:Hy.
  2:{ unfold swapped. rewrite Hx, Hy. by rewrite Hx, Hy. }
  destruct (position_cell grid x i1 j1 Hx) as (? & a & _ & _ & Ha).
  destruct (position_cell grid y i2 j2 Hy) as (? & b & _ & _ & Hb).
  destruct (swapped_cells grid x y i1 j1 i2 j2 a b Hx Hy Ha Hb) as [Hs Hc].
  destruct (swapped_cells grid y x i2 j2 i1 j1 b a Hy Hx Hb Ha) as [Hs' Hc'].
  assert (Hsame : i1 = i2 /\ j1 = j2 -> a = b).
  { intros [-> ->]. congruence. }
  split.
  - assert (Hx1 : position (swapped grid x y) x = Some (i1, j1))
      by by rewrite (position_shape _ grid).
    assert (Hy1 : position (swapped grid x y) y = Some (i2, j2))
      by by rewrite (position_shape _ grid).
    assert (Ha1 : cell (swapped grid x y) i1 j1
                  = Some (if decide (i1 = i2 /\ j1 = j2) then a else b)).
    { rewrite Hc. case_decide; [done |]. by rewrite decide_True. }
    assert (Hb1 : cell (swapped grid x y) i2 j2 = Some a).
    { rewrite Hc. by rewrite decide_True. }
    destruct (swapped_cells _ x y i1 j1 i2 j2 _ _ Hx1 Hy1 Ha1 Hb1) as [Hs2 Hc2].
    apply grid_ext; [congruence |].
    intros i j. rewrite Hc2, Hc.
    destruct (decide (i = i2 /\ j = j2)) as [[-> ->] | Hne2].
    + rewrite Hb. case_decide as Heq; [by rewrite (Hsame Heq) | done].
    + destruct (decide (i = i1 /\ j = j1)) as [[-> ->] | Hne1]; [done | done].
  - apply grid_ext; [congruence |].
    intros i j. rewrite Hc, Hc'.
    destruct (decide (i = i1 /\ j = j1)) as [[-> ->] | Hne1];
      destruct (decide (_ = i2 /\ _ = j2)) as [Heq | Hne2]; try done.
    by rewrite (Hsame Heq).
Qed.

(** *** Enumerating the cells *)

Lemma elem_of_concat_fmap {A B} (f : A -> list B) (l : list A) (y : B) :
  y ∈ concat (f <$> l) <-> exists x, x ∈ l /\ y ∈ f x.
Proof.
  induction l as [| a l IH]; cbn.
  - split; [by intros ?%elem_of_nil | by intros (x & ?%elem_of_nil & _)].
  - rewrite elem_of_app, IH. split.
    + intros [Hy | (x & Hx & Hy)]; [exists a | exists x]; split; try done;
        [by left | by right].
    + intros (x & [-> | Hx]%elem_of_cons & Hy); [by left | right; by exists x].
Qed.

Lemma grid_sequence_elem_of (grid : list str) (rc : Z * Z) :
  rc ∈ concat ((fun r => (fun c => (r, c)) <$> range (colCount grid))
                 <$> range (rowCount grid))
  <-> valid_coord grid rc.
Proof.
  destruct rc as [r c]. unfold valid_coord, range. cbn [fst snd].
  rewrite elem_of_concat_fmap. split.
  - intros (r' & Hr & (c' & [= -> ->] & Hc)%list_elem_of_fmap).
    apply elem_of_seqZ in Hr, Hc. lia.
  - intros [Hr Hc]. exists r. split; [apply elem_of_seqZ; lia |].
    apply list_elem_of_fmap. exists c. split; [done |]. apply elem_of_seqZ. lia.
Qed.

(** X15: the coordinates [grid_sequence] yields are exactly those for which
    [grid_is_inbound] answers true; on a rectangular grid [grid_get] reads
    every one of them without raising, and [grid_get_or_none] gives the
    same value. *)
Theorem grid_sequence_inbound (grid : list str) :
  exists coords,
    eval grid_sequence grid = Ret coords /\
    (forall rc, rc ∈ coords <-> eval (grid_is_inbound rc) grid = Ret true) /\
    (rectangular grid ->
     forall rc, rc ∈ coords ->
       exists v, eval (grid_get rc.1 rc.2) grid = Ret v /\
                 eval (grid_get_or_none rc) grid = Ret (Some v)).
Proof.
  unfold eval. rewrite grid_sequence_run. cbn [fst]. eexists.
  split; [reflexivity |]. split.
  - intros rc. rewrite grid_sequence_elem_of, grid_is_inbound_run. cbn [fst].
    split.
    + intros Hv. by rewrite bool_decide_eq_true_2.
    + intros [= Hv]. by apply bool_decide_eq_true in Hv.
  - intros Hrect [r c] Hv%grid_sequence_elem_of. cbn [fst snd].
    pose proof (grid_get_or_none_nonneg grid r c Hrect) as Hn.
    destruct Hv as [Hr Hc]. cbn [fst snd] in *.
    specialize (Hn ltac:(lia) ltac:(lia)).
    rewrite decide_True in Hn by (split; done). exact Hn.
Qed.

(** X16: on a grid without columns (no row, or an empty first row)
    [grid_sequence] yields nothing and [grid_is_inbound] is false
    everywhere; on the grid without rows every read raises [IndexError] or
    gives [None], [grid_set] raises [IndexError], and [grid_swap] does
    nothing. *)
Theorem grid_without_columns (grid : list str) :
  eval grid_cols grid = Ret 0 ->
  eval grid_sequence grid = Ret [] /\
  (forall rc, eval (grid_is_inbound rc) grid = Ret false) /\
  (grid = [] ->
   forall r c v x y,
     eval (grid_get r c) grid = Raise IndexError /\
     eval (grid_get_or_none (r, c)) grid = Ret None /\
     eval (grid_int r c) grid = Ret None /\
     grid_set r c v grid = (Raise IndexError, grid) /\
     grid_swap x y grid = (Ret tt, grid)).
Proof.
  unfold eval at 1. rewrite grid_cols_run. cbn [fst]. intros [= Hcols].
  split_and!.
  - unfold eval. rewrite grid_sequence_run, Hcols. cbn [fst]. f_equal.
    unfold range. generalize (seqZ 0 (rowCount grid)). intros l.
    by induction l.
  - intros rc. unfold eval. rewrite grid_is_inbound_run. cbn [fst].
    f_equal. apply bool_decide_eq_false. intros [_ Hc]. lia.
  - intros -> r c v x y.
    assert (Hpos : forall rc, position [] rc = None).
    { intros rc. unfold position, index_at. cbn.
      repeat case_decide; done || lia. }
    unfold eval, grid_get.
    rewrite grid_item_position, grid_get_or_none_position, grid_set_position,
      grid_swap_run, !Hpos. cbn [fst].
    split_and!; try done.
    + unfold grid_int, m_try. unfold mbind at 1. unfold M_bind, m_bind.
      by rewrite grid_item_position, Hpos.
    + unfold swapped. by rewrite Hpos.
Qed.

Lemma grid_without_columns_witness :
  eval grid_sequence [py ""; py "ab"] = Ret [] /\
  (forall rc, eval (grid_is_inbound rc) [py ""; py "ab"] = Ret false) /\
  ([py ""; py "ab"] = [] ->
   forall r c v x y,
     eval (grid_get r c) [py ""; py "ab"] = Raise IndexError /\
     eval (grid_get_or_none (r, c)) [py ""; py "ab"] = Ret None /\
     eval (grid_int r c) [py ""; py "ab"] = Ret None /\
     grid_set r c v [py ""; py "ab"] = (Raise IndexError, [py ""; py "ab"]) /\
     grid_swap x y [py ""; py "ab"] = (Ret tt, [py ""; py "ab"])).
Proof. apply (grid_without_columns [py ""; py "ab"]). reflexivity. Defined.

End grid_position_facts.

(** ** Permutations: the scratch list longer than asked, and the order *)

Section more_permutation_facts.
Context {T : Type} `{Countable T}.
Implicit Types (h : gmap nat (list (val T))) (xs : list (val T)).

Lemma permute_overlong_raises (ops : gset T) (curr result : nat)
    (max_length : Z) (depth : nat) h xs :
  ops ≠ ∅ -> h !! curr = Some xs -> (max_length < len xs)%Z ->
  eval (permute depth curr max_length result ops) h = Raise RecursionError.
Proof.
  intros Hops. revert h xs. induction depth as [| depth IH]; intros h xs Hcurr Hlen;
    [reflexivity |].
  unfold eval. cbn [permute].
  rewrite (m_bind_ret _ _ _ _ _ (list_len_run h curr _ Hcurr)).
  destruct (Z.eqb_spec (len xs) max_length); [lia |].
  destruct (elements ops) as [| op os] eqn:Hel.
  { by apply elements_empty_inv, leibniz_equiv in Hel. }
  cbn [for_each].
  set (h1 := <[curr := xs ++ [Elem op]]> h).
  specialize (IH h1 (xs ++ [Elem op])). unfold eval in IH.
  destruct (permute depth curr max_length result ops h1) as [res h2] eqn:Hrun.
  cbn [fst] in IH. rewrite IH in Hrun.
  - unfold mbind at 1. unfold M_bind, m_bind.
    rewrite (m_bind_ret _ _ h h1 tt) by by apply list_append_run.
    by rewrite (m_bind_raise _ _ h1 h2 RecursionError) by exact Hrun.
  - subst h1. by rewrite lookup_insert_eq.
  - unfold len in *. rewrite length_app. cbn. lia.
Qed.

(** X17: when the scratch list is already longer than [max_length], as it
    is for every negative [max_length], [permute] over a non-empty alphabet
    never reaches a complete sequence: it raises [RecursionError] whatever
    recursion depth is allowed.  Over the empty alphabet it returns at once
    and changes nothing. *)
Theorem permute_overlong (ops : gset T) (curr result : nat) (max_length : Z)
    (depth : nat) h xs :
  h !! curr = Some xs -> (max_length < len xs)%Z ->
  (ops ≠ ∅ ->
   eval (permute depth curr max_length result ops) h = Raise RecursionError) /\
  (ops = ∅ ->
   permute (S depth) curr max_length result ops h = (Ret tt, h)).
Proof.
  intros Hcurr Hlen. split.
  - intros Hops. by eapply permute_overlong_raises.
  - intros ->. cbn [permute].
    rewrite (m_bind_ret _ _ _ _ _ (list_len_run h curr _ Hcurr)).
    destruct (Z.eqb_spec (len xs) max_length); [lia |].
    by rewrite elements_empty.
Qed.


End more_permutation_facts.

Lemma permute_overlong_witness :
  (({[ 0%nat ]} : gset nat) ≠ ∅ ->
   eval (permute 7 0 (-1) 1 ({[ 0%nat ]} : gset nat))
     ({[ 0%nat := []; 1%nat := [] ]} : gmap nat (list (val nat)))
   = Raise RecursionError) /\
  (({[ 0%nat ]} : gset nat) = ∅ ->
   permute (S 7) 0 (-1) 1 ({[ 0%nat ]} : gset nat)
     ({[ 0%nat := []; 1%nat := [] ]} : gmap nat (list (val nat)))
   = (Ret tt, {[ 0%nat := []; 1%nat := [] ]})).
Proof.
  apply (permute_overlong ({[ 0%nat ]} : gset nat) 0 1 (-1) 7
           ({[ 0%nat := []; 1%nat := [] ]} : gmap nat (list (val nat))) []).
  - reflexivity.
  - reflexivity.
Defined.


(** ** Pairs of a list *)

Section pair_facts.
Context {T : Type}.
Local Open Scope Z_scope.

(** The pair the generator yields at the indices [i] and [j]. *)
Lemma unique_pairs_run (lst : list T) :
  unique_pairs lst =
    (Ret (concat ((fun i =>
            concat ((fun j =>
              match lst !! Z.to_nat i, lst !! Z.to_nat j with
              | Some x, Some y => [(x, y)]
              | _, _ => []
              end) <$> range2 (i + 1) (len lst)))
          <$> range (len lst))), lst).
Proof.
  unfold unique_pairs.
  rewrite (m_bind_ret _ _ lst lst lst) by reflexivity.
  apply for_yield_pure. intros i Hi%elem_of_seqZ.
  apply for_yield_pure. intros j Hj%elem_of_seqZ.
  destruct (getitem_in_range lst i ltac:(lia)) as (x & Hx & Hgx).
  destruct (getitem_in_range lst j ltac:(lia)) as (y & Hy & Hgy).
  rewrite Hx, Hy. m_unfold. by rewrite Hgx, Hgy.
Qed.

Lemma length_concat_triangle {B} (g : Z -> list B) (N k : nat) :
  (k <= N)%nat ->
  (forall i, 0 <= i < Z.of_nat k ->
     Z.of_nat (length (g i)) = Z.of_nat N - 1 - i) ->
  2 * Z.of_nat (length (concat (g <$> seqZ 0 (Z.of_nat k))))
  = Z.of_nat k * (2 * Z.of_nat N - 1 - Z.of_nat k).
Proof.
  induction k as [| k IH]; intros Hk Hg; [reflexivity |].
  rewrite seqZ_S, fmap_app, concat_app, length_app. cbn [fmap list_fmap concat].
  rewrite app_nil_r, Nat2Z.inj_add, Z.mul_add_distr_l, IH, Hg by (lia || auto with lia).
  lia.
Qed.

Lemma NoDup_concat_fmap {A B} (f : A -> list B) (l : list A) :
  NoDup l ->
  (forall x, x ∈ l -> NoDup (f x)) ->
  (forall x1 x2 y, x1 ∈ l -> x2 ∈ l -> y ∈ f x1 -> y ∈ f x2 -> x1 = x2) ->
  NoDup (concat (f <$> l)).
Proof.
  induction 1 as [| a l Ha Hl IH]; intros Hf Hinj; cbn; [constructor |].
  apply NoDup_app. split_and!.
  - apply Hf. by left.
  - intros y Hy (x & Hx & Hyx)%elem_of_concat_fmap.
    apply Ha. rewrite (Hinj a x y); [done | by left | by right | done | done].
  - apply IH.
    + intros x Hx. apply Hf. by right.
    + intros x1 x2 y Hx1 Hx2. apply Hinj; by right.
Qed.

(** X18: [unique_pairs] never raises and leaves the list as it is; it
    yields [n * (n - 1) / 2] pairs, namely the pairs of an item and a later
    item.  When the items are pairwise different, so are the pairs, no pair
    has two equal components, and no pair appears in both orders. *)
Theorem unique_pairs_spec (lst : list T) :
  exists pairs,
    unique_pairs lst = (Ret pairs, lst) /\
    2 * len pairs = len lst * (len lst - 1) /\
    (forall x y, (x, y) ∈ pairs <->
       exists i j : nat, (i < j)%nat /\ lst !! i = Some x /\ lst !! j = Some y) /\
    (NoDup lst ->
     NoDup pairs /\ forall x y, (x, y) ∈ pairs -> x ≠ y /\ (y, x) ∉ pairs).
Proof.
  rewrite unique_pairs_run. eexists. split; [reflexivity |].
  set (F := fun i j : Z =>
              match lst !! Z.to_nat i, lst !! Z.to_nat j with
              | Some x, Some y => [(x, y)]
              | _, _ => []
              end).
  set (G := fun i => concat (F i <$> range2 (i + 1) (len lst))).
  assert (Hmem : forall x y,
    (x, y) ∈ concat (G <$> range (len lst)) <->
    exists i j : nat, (i < j)%nat /\ lst !! i = Some x /\ lst !! j = Some y).
  { intros x y. rewrite elem_of_concat_fmap. split.
    - intros (i & Hi%elem_of_seqZ & (j & Hj%elem_of_seqZ & Hxy)%elem_of_concat_fmap).
      subst F. cbn in Hxy.
      destruct (lst !! Z.to_nat i) as [x' |] eqn:Hx; [| by apply elem_of_nil in Hxy].
      destruct (lst !! Z.to_nat j) as [y' |] eqn:Hy; [| by apply elem_of_nil in Hxy].
      apply list_elem_of_singleton in Hxy as [= -> ->].
      exists (Z.to_nat i), (Z.to_nat j). split_and!; [lia | done | done].
    - intros (i & j & Hij & Hx & Hy).
      pose proof (lookup_lt_Some _ _ _ Hy) as Hj.
      exists (Z.of_nat i). split; [apply elem_of_seqZ; unfold len; lia |].
      apply elem_of_concat_fmap. exists (Z.of_nat j).
      split; [apply elem_of_seqZ; unfold len; lia |].
      subst F. cbn. rewrite !Nat2Z.id, Hx, Hy. by left. }
  split_and!.
  - unfold len, range. rewrite (length_concat_triangle G (length lst)).
    + lia.
    + lia.
    + intros i Hi. subst G. cbn. unfold range2.
      assert (Hone : forall l : list Z,
                (forall j, j ∈ l -> 0 <= j < len lst) ->
                length (concat (F i <$> l)) = length l).
      { induction l as [| j l IHl]; intros Hl; [reflexivity |]. cbn.
        rewrite length_app, IHl by (intros j' Hj'; apply Hl; by right).
        f_equal. subst F. cbn.
        destruct (lookup_lt_is_Some_2 lst (Z.to_nat i)) as [x Hx];
          [unfold len in *; lia |].
        destruct (lookup_lt_is_Some_2 lst (Z.to_nat j)) as [y Hy].
        { specialize (Hl j ltac:(by left)). unfold len in *; lia. }
        by rewrite Hx, Hy. }
      rewrite Hone.
      * rewrite length_seqZ. unfold len. lia.
      * intros j Hj%elem_of_seqZ. lia.
  - exact Hmem.
  - intros Hnd.
    assert (Hinj : forall i i' x, lst !! i = Some x -> lst !! i' = Some x -> i = i')
      by (intros i i' x; by apply NoDup_lookup).
    split.
    + assert (HF : forall i j x y,
                (x, y) ∈ F i j ->
                lst !! Z.to_nat i = Some x /\ lst !! Z.to_nat j = Some y).
      { intros i j x y. subst F. cbn.
        destruct (lst !! Z.to_nat i), (lst !! Z.to_nat j);
          try (by intros ?%elem_of_nil).
        by intros [= -> ->]%list_elem_of_singleton. }
      apply NoDup_concat_fmap; [apply NoDup_seqZ | |].
      * intros i Hi%elem_of_seqZ. subst G. cbn.
        apply NoDup_concat_fmap; [apply NoDup_seqZ | |].
        -- intros j _. subst F. cbn.
           destruct (lst !! Z.to_nat i), (lst !! Z.to_nat j);
             first [apply NoDup_singleton | apply NoDup_nil_2].
        -- intros j1 j2 [x y] Hj1%elem_of_seqZ Hj2%elem_of_seqZ
             [_ Hy1]%HF [_ Hy2]%HF.
           pose proof (Hinj _ _ _ Hy1 Hy2). lia.
      * intros i1 i2 [x y] Hi1%elem_of_seqZ Hi2%elem_of_seqZ.
        subst G. cbn.
        intros (j1 & _ & [Hx1 _]%HF)%elem_of_concat_fmap
               (j2 & _ & [Hx2 _]%HF)%elem_of_concat_fmap.
        pose proof (Hinj _ _ _ Hx1 Hx2). lia.
    + intros x y (i & j & Hij & Hx & Hy)%Hmem. split.
      * intros ->. specialize (Hinj i j y Hx Hy). lia.
      * intros (j' & i' & Hji & Hy' & Hx')%Hmem.
        pose proof (Hinj i i' x Hx Hx'). pose proof (Hinj j j' y Hy Hy'). lia.
Qed.

End pair_facts.

(** ** Printing a grid *)

Section print_facts.




End print_facts.
